(** * A shallow embedding of the KDL printer of prettier-plugin-kdl

    The development follows [src/printer.js] (the ES-module printer, the
    one that writes the sigil-prefixed keywords [#true], [#null], [#nan]).
    JavaScript strings are sequences of UTF-16 code units, documents of the
    layout library are an inductive type with one constructor per builder,
    and the two collaborators the printer calls into (the trivia tokenizer
    of [@bgotink/kdl] and the width measure of [prettier]) are variables
    of the section that holds the printer. *)

From Stdlib Require Import Strings.String Strings.Ascii.
From Stdlib Require Numbers.DecimalString.
From Stdlib Require Import List NArith ZArith Lia Bool Arith.
From Stdlib Require Import Floats.SpecFloat.
From Equations Require Import Equations.
From Equations.Prop Require Import Logic.
Import ListNotations.

Set Implicit Arguments.
Set Warnings "-register-all".

(** ** JavaScript strings *)

Module JS.

(** A string is the list of its UTF-16 code units. *)
Definition jsstring := list N.

(** ASCII text of the development, unit by unit. *)
Definition lit (s : String.string) : jsstring :=
map Ascii.N_of_ascii (String.list_ascii_of_string s).
Arguments lit s%_string.

Definition DQUOTE : N := 0x22.
Definition HASH : N := 0x23.
Definition STAR : N := 0x2A.
Definition SEMICOLON : N := 0x3B.
Definition BACKSLASH : N := 0x5C.
Definition SPACE : N := 0x20.
Definition LF : N := 0x0A.
Definition CR : N := 0x0D.

(** [s.startsWith(pat)] *)
Fixpoint startsWith (s pat : jsstring) : bool :=
match pat, s with
| [], _ => true
| p :: pat', c :: s' => (c =? p)%N && startsWith s' pat'
| _ :: _, [] => false
end.

(** [s.includes(pat)]: [pat] starts at some position of [s]. *)
Fixpoint includes (s pat : jsstring) : bool :=
startsWith s pat
|| match s with
   | [] => false
   | _ :: s' => includes s' pat
   end.

(** [s.endsWith(pat)] *)
Definition endsWith (s pat : jsstring) : bool :=
startsWith (rev s) (rev pat).

(** [s.slice(0, -1)] and [s.slice(1)] *)
Definition slice_0_m1 (s : jsstring) : jsstring := removelast s.
Definition slice_1 (s : jsstring) : jsstring := tl s.

(** [c.repeat(n)] for a one-unit string *)
Definition repeat1 (c : N) (n : nat) : jsstring := repeat c n.

(** [parts.join("")] *)
Definition joinEmpty (parts : list jsstring) : jsstring := concat parts.

(** String equality, unit by unit (the [===] of two strings). *)
Fixpoint streq (a b : jsstring) : bool :=
match a, b with
| [], [] => true
| x :: a', y :: b' => (x =? y)%N && streq a' b'
| _, _ => false
end.

(** *** [JSON.stringify] on a string (QuoteJSONString of ECMA-262) *)

Definition hexDigit (d : N) : N :=
if (d <? 10)%N then (0x30 + d)%N else (0x61 + (d - 10))%N.

(** [\uXXXX] with four lower-case hexadecimal digits *)
Definition unicodeEscape (c : N) : jsstring :=
[BACKSLASH; 0x75%N;
 hexDigit ((c / 4096) mod 16); hexDigit ((c / 256) mod 16);
 hexDigit ((c / 16) mod 16); hexDigit (c mod 16)].

Definition isLeadingSurrogate (c : N) : bool :=
(0xD800 <=? c)%N && (c <=? 0xDBFF)%N.
Definition isTrailingSurrogate (c : N) : bool :=
(0xDC00 <=? c)%N && (c <=? 0xDFFF)%N.

Fixpoint quoteJSONBody (s : jsstring) : jsstring :=
match s with
| [] => []
| c :: rest =>
    if (c =? 0x08)%N then BACKSLASH :: 0x62%N :: quoteJSONBody rest
    else if (c =? 0x09)%N then BACKSLASH :: 0x74%N :: quoteJSONBody rest
    else if (c =? 0x0A)%N then BACKSLASH :: 0x6E%N :: quoteJSONBody rest
    else if (c =? 0x0C)%N then BACKSLASH :: 0x66%N :: quoteJSONBody rest
    else if (c =? 0x0D)%N then BACKSLASH :: 0x72%N :: quoteJSONBody rest
    else if (c =? DQUOTE)%N then BACKSLASH :: DQUOTE :: quoteJSONBody rest
    else if (c =? BACKSLASH)%N
      then BACKSLASH :: BACKSLASH :: quoteJSONBody rest
    else if (c <? 0x20)%N then unicodeEscape c ++ quoteJSONBody rest
    else if isLeadingSurrogate c then
      match rest with
      | d :: rest' =>
          if isTrailingSurrogate d then c :: d :: quoteJSONBody rest'
          else unicodeEscape c ++ quoteJSONBody rest
      | [] => unicodeEscape c
      end
    else if isTrailingSurrogate c
      then unicodeEscape c ++ quoteJSONBody rest
    else c :: quoteJSONBody rest
end.

Definition JSON_stringify (s : jsstring) : jsstring :=
DQUOTE :: quoteJSONBody s ++ [DQUOTE].

(** *** Numbers

  A Number is an IEEE 754 binary64 value.  [Number::toString] is modelled
  where it is elementary: on the integers of magnitude at most 2^53 it is
  the decimal numeral (every such integer is its own shortest round-trip
  numeral).  On the other finite values it is the engine's shortest
  round-trip conversion, a variable of the printer. *)

Definition number := spec_float.

Definition Number_isNaN (x : number) : bool :=
match x with S754_nan => true | _ => false end.

Definition Number_isFinite (x : number) : bool :=
match x with S754_zero _ | S754_finite _ _ _ => true | _ => false end.

(** [x < 0] *)
Definition Number_ltZero (x : number) : bool :=
match x with
| S754_infinity s | S754_finite s _ _ => s
| S754_zero _ | S754_nan => false
end.

(** The integer a finite value [m * 2^e] denotes, when it is one. *)
Definition integerValue (m : positive) (e : Z) : option N :=
if (0 <=? e)%Z then Some (N.shiftl (Npos m) (Z.to_N e))
else
  let d := Z.to_N (- e) in
  if (N.land (Npos m) (N.ones d) =? 0)%N
  then Some (N.shiftr (Npos m) d) else None.

Definition decimal (n : N) : jsstring :=
lit (DecimalString.NilEmpty.string_of_uint (N.to_uint n)).

Definition MAX_SAFE : N := 2 ^ 53.

Section NumberToString.
Variable shortestRoundTrip : number -> jsstring.

Definition Number_toString (x : number) : jsstring :=
match x with
| S754_nan => lit "NaN"
| S754_infinity s => if s then lit "-Infinity" else lit "Infinity"
| S754_zero _ => lit "0"
| S754_finite s m e =>
    match integerValue m e with
    | Some n =>
        if (n <=? MAX_SAFE)%N
        then (if s then lit "-" else []) ++ decimal n
        else shortestRoundTrip x
    | None => shortestRoundTrip x
    end
end.
End NumberToString.

End JS.
Import JS.

(** ** The document tree of [@bgotink/kdl] *)

(** [value.value]: [null], a boolean, a string or a number. *)
Inductive Value :=
| VNull
| VBool (b : bool)
| VString (s : jsstring)
| VNumber (x : number).

Record Identifier := { name : jsstring }.

(** A type annotation: an identifier with the trivia inside its
    parentheses. *)
Record Tag := {
  tag_name : jsstring;
  tag_leading : option jsstring;
  tag_trailing : option jsstring }.

Record Entry := {
  entry_name : option Identifier;
  equals : option jsstring;
  entry_tag : option Tag;
  betweenTagAndValue : option jsstring;
  value : Value;
  entry_leading : option jsstring }.

Inductive Node :=
  mkNode (node_name : Identifier) (node_tag : option Tag)
         (betweenTagAndName : option jsstring) (entries : list Entry)
         (children : option Document)
         (leading beforeChildren trailing : option jsstring)
with Document :=
  mkDocument (nodes : list Node) (document_trailing : option jsstring).

Definition node_name (n : Node) := let (x, _, _, _, _, _, _, _) := n in x.
Definition node_tag (n : Node) := let (_, x, _, _, _, _, _, _) := n in x.
Definition betweenTagAndName (n : Node) :=
  let (_, _, x, _, _, _, _, _) := n in x.
Definition entries (n : Node) := let (_, _, _, x, _, _, _, _) := n in x.
Definition children (n : Node) := let (_, _, _, _, x, _, _, _) := n in x.
Definition leading (n : Node) := let (_, _, _, _, _, x, _, _) := n in x.
Definition beforeChildren (n : Node) :=
  let (_, _, _, _, _, _, x, _) := n in x.
Definition trailing (n : Node) := let (_, _, _, _, _, _, _, x) := n in x.
Definition nodes (d : Document) := let (x, _) := d in x.
Definition document_trailing (d : Document) := let (_, x) := d in x.

(** [entry.isArgument()], [node.getArgumentEntries()], [node.hasChildren()] *)
Definition isArgument (e : Entry) : bool :=
  match entry_name e with None => true | Some _ => false end.

Definition getArgumentEntries (n : Node) : list Entry :=
  filter isArgument (entries n).

Definition hasChildren (n : Node) : bool :=
  match children n with
  | Some d => negb (length (nodes d) =? 0)
  | None => false
  end.

(** The tokens of [parse(text, {as: ...})].  Of a token the printer reads
    the [type], the [text] of comments and line escapes, and the [value] of
    a slashdash; [LSOther] and [NSOther] stand for the types no [case] of
    the printer names (a byte-order mark and the like). *)
Inductive LineSpace :=
| LSNewline
| LSSpace
| LSSingleline (text : jsstring)
| LSMultiline (text : jsstring)
| LSSlashdash (value : Node)
| LSOther.

(** [whitespace.value instanceof Entry] separates the two slashdash
    payloads of a node header. *)
Inductive NodeSpace :=
| NSSpace
| NSLineEscape (text : jsstring)
| NSSlashdashEntry (value : Entry)
| NSSlashdashDocument (value : Document)
| NSMultiline (text : jsstring)
| NSOther.

(** Truthiness of an optional string, and [x ?? ""]. *)
Definition truthy (o : option jsstring) : bool :=
  match o with Some (_ :: _) => true | _ => false end.

Definition orEmpty (o : option jsstring) : jsstring :=
  match o with Some s => s | None => [] end.


(** ** Literals: [printValue] and [printIdentifier] *)

(** The loop of [printValue] and [printIdentifier] that increments
    [numberOfHashes] while the text includes a double quote followed by
    that many hashes, entered with the counter at [k].  A needle found in [s] is no longer than [s],
    which bounds the counter. *)
Lemma startsWith_length (pat s : jsstring) :
  startsWith s pat = true -> length pat <= length s.
Proof.
  revert s. induction pat as [|p pat IH]; intros s H; simpl in *; [lia |].
  destruct s as [|c s]; [discriminate |].
  apply andb_true_iff in H. destruct H as [_ H].
  apply IH in H. simpl. lia.
Qed.

Lemma includes_length (s pat : jsstring) :
  includes s pat = true -> length pat <= length s.
Proof.
  induction s as [|c s IH]; intros H.
  - destruct pat; simpl in *; [lia | discriminate].
  - change (startsWith (c :: s) pat || includes s pat = true) in H.
    apply orb_true_iff in H. destruct H as [H | H].
    + now apply startsWith_length.
    + apply IH in H. simpl. lia.
Qed.

Equations? hashLoop (s : jsstring) (k : nat) : nat
  by wf (S (length s) - k) lt :=
  hashLoop s k with inspect (includes s (DQUOTE :: repeat1 HASH k)) := {
    | exist _ true found => hashLoop s (S k)
    | exist _ false _ => k }.
Proof.
  apply includes_length in found. simpl in found.
  unfold repeat1 in found. rewrite repeat_length in found.
  clear hashLoop. destruct k; lia.
Qed.

Definition numberOfHashes (s : jsstring) : nat := hashLoop s 0.

Definition rawString (n : nat) (s : jsstring) : jsstring :=
  repeat1 HASH n ++ [DQUOTE] ++ s ++ [DQUOTE] ++ repeat1 HASH n.

Section Literals.
Variable shortestRoundTrip : number -> jsstring.

Definition printValue (value : Value) : jsstring :=
  match value with
  | VNull => lit "#null"
  | VBool b => if b then lit "#true" else lit "#false"
  | VString rawValue =>
      let numberOfHashes := numberOfHashes rawValue in
      if numberOfHashes =? 0 then JSON_stringify rawValue
      else rawString numberOfHashes rawValue
  | VNumber rawValue =>
      if Number_isNaN rawValue then lit "#nan"
      else if negb (Number_isFinite rawValue) then
        (if Number_ltZero rawValue then lit "#-inf" else lit "#inf")
      else Number_toString shortestRoundTrip rawValue
  end.
End Literals.

(** [plainIdentifierRe]: no sign followed by a digit at the front, one unit
    of the first class, then units of the continuation class to the end. *)
Definition inRange (lo hi c : N) : bool := (lo <=? c)%N && (c <=? hi)%N.

Definition isDigit (c : N) : bool := inRange 0x30 0x39 c.

Definition identifierStart (c : N) : bool :=
  (c =? 0x21)%N || inRange 0x23 0x27 c || (c =? 0x2A)%N || (c =? 0x2B)%N
  || (c =? 0x2D)%N || (c =? 0x2E)%N || (c =? 0x3A)%N || inRange 0x3F 0x5A c
  || inRange 0x5E 0x7A c || (c =? 0x7C)%N || inRange 0x7E 0xFFFF c.

Definition identifierPart (c : N) : bool :=
  (c =? 0x21)%N || inRange 0x23 0x27 c || (c =? 0x2A)%N || (c =? 0x2B)%N
  || (c =? 0x2D)%N || (c =? 0x2E)%N || inRange 0x30 0x3A c
  || inRange 0x3F 0x5A c || inRange 0x5E 0x7A c || (c =? 0x7C)%N
  || inRange 0x7E 0xFFFF c.

Definition signThenDigit (s : jsstring) : bool :=
  match s with
  | c :: d :: _ => ((c =? 0x2B)%N || (c =? 0x2D)%N) && isDigit d
  | _ => false
  end.

Definition plainIdentifierRe_test (s : jsstring) : bool :=
  negb (signThenDigit s)
  && match s with
     | c :: rest => identifierStart c && forallb identifierPart rest
     | [] => false
     end.

Definition reservedIdentifiers : list jsstring :=
  [lit "inf"; lit "-inf"; lit "nan"; lit "true"; lit "false"; lit "null"].

Definition reservedIdentifiers_has (s : jsstring) : bool :=
  existsb (streq s) reservedIdentifiers.

Definition printIdentifier (identifier : Identifier) : jsstring :=
  if (0 <? length (name identifier))
     && negb (reservedIdentifiers_has (name identifier))
     && plainIdentifierRe_test (name identifier)
  then name identifier
  else
    let numberOfHashes := numberOfHashes (name identifier) in
    if numberOfHashes =? 0
    then [DQUOTE] ++ name identifier ++ [DQUOTE]
    else rawString numberOfHashes (name identifier).

(** ** The CommonJS build of the printer

    [printer.js] also holds the CommonJS build that [index.js] requires.
    Its [printIdentifier] tests the same pattern, knows no reserved
    names, returns the empty name as it is, and starts a raw string with
    the letter r. *)

Module Legacy.
Definition rawString (n : nat) (s : jsstring) : jsstring :=
  lit "r" ++ repeat1 HASH n ++ [DQUOTE] ++ s ++ [DQUOTE] ++ repeat1 HASH n.

Definition printIdentifier (identifier : Identifier) : jsstring :=
  if (length (name identifier) =? 0)
     || plainIdentifierRe_test (name identifier)
  then name identifier
  else
    let numberOfHashes := numberOfHashes (name identifier) in
    if numberOfHashes =? 0
    then [DQUOTE] ++ name identifier ++ [DQUOTE]
    else rawString numberOfHashes (name identifier).
End Legacy.

(** ** Trimming and line splitting *)

Definition isInlineSpace (c : N) : bool :=
  (c =? 0x20)%N || (c =? 0x09)%N || (c =? 0xFEFF)%N || (c =? 0xA0)%N
  || (c =? 0x1680)%N || inRange 0x2000 0x200A c || (c =? 0x202F)%N
  || (c =? 0x205F)%N || (c =? 0x3000)%N.

Fixpoint trimStart (line : jsstring) : jsstring :=
  match line with
  | c :: rest => if isInlineSpace c then trimStart rest else line
  | [] => []
  end.

Definition trimEnd (line : jsstring) : jsstring :=
  rev (trimStart (rev line)).

Definition trim (line : jsstring) : jsstring := trimEnd (trimStart line).

(** The single-unit line terminators of the splitting expression; the pair
    CR LF is tried first. *)
Definition isLineTerminator (c : N) : bool :=
  (c =? 0x0A)%N || (c =? 0x0C)%N || (c =? 0x0D)%N || (c =? 0x85)%N
  || (c =? 0x2028)%N || (c =? 0x2029)%N.

Fixpoint splitLines (s : jsstring) : list jsstring :=
  match s with
  | [] => [[]]
  | c :: rest =>
      if isLineTerminator c then
        match rest with
        | d :: rest' =>
            if (c =? CR)%N && (d =? LF)%N then [] :: splitLines rest'
            else [] :: splitLines rest
        | [] => [[]; []]
        end
      else
        match splitLines rest with
        | l :: ls => (c :: l) :: ls
        | [] => [[c]]
        end
  end.

(** [lines.every((line, i) => p(line, i))] *)
Fixpoint every_from {A} (p : A -> nat -> bool) (i : nat) (l : list A) : bool :=
  match l with
  | [] => true
  | x :: l' => p x i && every_from p (S i) l'
  end.

Definition every {A} (p : A -> nat -> bool) (l : list A) : bool :=
  every_from p 0 l.

(** ** Documents of the layout library *)

Inductive Doc :=
| DString (s : jsstring)
| DArray (parts : list Doc)
| DGroup (contents : Doc)
| DIndent (contents : Doc)
| DAlign (n : nat) (contents : Doc)
| DIfBreak (breakContents flatContents : Doc)
| DLine
| DHardlineWithoutBreakParent
| DBreakParent.

Module builders.
Definition line : Doc := DLine.
Definition hardlineWithoutBreakParent : Doc := DHardlineWithoutBreakParent.
Definition breakParent : Doc := DBreakParent.
Definition hardline : Doc :=
  DArray [hardlineWithoutBreakParent; breakParent].
Definition group (contents : Doc) : Doc := DGroup contents.
Definition indent (contents : Doc) : Doc := DIndent contents.
Definition align (n : nat) (contents : Doc) : Doc := DAlign n contents.
Definition ifBreak (breakContents flatContents : Doc) : Doc :=
  DIfBreak breakContents flatContents.

Fixpoint joinParts (separator : Doc) (docs : list Doc) : list Doc :=
  match docs with
  | [] => []
  | [d] => [d]
  | d :: rest => d :: separator :: joinParts separator rest
  end.

Definition join (separator : Doc) (docs : list Doc) : Doc :=
  DArray (joinParts separator docs).
End builders.

(** ** The layout of a document

    Modelled from the spec: the layout algebra is the document printer of
    [prettier], which the repository calls and does not contain.  A group
    renders flat if it fits the remaining width and holds no forced break,
    else broken; [line] is a space when flat and a newline when broken; a
    hard line is always a newline; [align] shifts the line breaks it holds
    by the given number of columns and [indent] by one level; [ifBreak]
    chooses by the mode of the enclosing group; a break parent forces the
    groups around it to break.  A newline drops the blanks that end the
    line before it.  The options are the defaults but for the two widths:
    indentation with spaces, LF line ends. *)

Inductive Mode := MODE_BREAK | MODE_FLAT.

(** [propagateBreaks]: a group is marked broken when a break parent occurs
    below it. *)
Fixpoint hasBreakParent (doc : Doc) : bool :=
  match doc with
  | DBreakParent => true
  | DArray parts => existsb hasBreakParent parts
  | DGroup c | DIndent c | DAlign _ c => hasBreakParent c
  | DIfBreak b f => hasBreakParent b || hasBreakParent f
  | DString _ | DLine | DHardlineWithoutBreakParent => false
  end.

Record LayoutState := {
  out : jsstring;
  pos : nat;
  shouldRemeasure : bool }.

Definition isBlank (c : N) : bool := (c =? 0x20)%N || (c =? 0x09)%N.

Fixpoint dropBlanks (s : jsstring) : jsstring :=
  match s with
  | c :: rest => if isBlank c then dropBlanks rest else s
  | [] => []
  end.

(** The blanks that end the output are dropped. *)
Definition trimOutput (s : jsstring) : jsstring := rev (dropBlanks (rev s)).

Section Layout.
Variable getStringWidth : jsstring -> nat.
Variable printWidth : nat.
Variable tabWidth : nat.

(** Whether [doc], then the commands that follow it, fit in [width]
    columns up to the next possible line break; [rest] measures the
    commands that follow. *)
Fixpoint fits (mode : Mode) (doc : Doc) (rest : Z -> bool) (width : Z)
  : bool :=
  match doc with
  | DString s =>
      let width := (width - Z.of_nat (getStringWidth s))%Z in
      if (width <? 0)%Z then false else rest width
  | DArray parts =>
      (fix fitsParts (parts : list Doc) : Z -> bool :=
         match parts with
         | [] => rest
         | d :: parts' => fits mode d (fitsParts parts')
         end) parts width
  | DGroup c =>
      fits (if hasBreakParent c then MODE_BREAK else mode) c rest width
  | DIndent c | DAlign _ c => fits mode c rest width
  | DIfBreak b f =>
      match mode with
      | MODE_BREAK => fits mode b rest width
      | MODE_FLAT => fits mode f rest width
      end
  | DLine =>
      match mode with
      | MODE_BREAK => true
      | MODE_FLAT =>
          let width := (width - 1)%Z in
          if (width <? 0)%Z then false else rest width
      end
  | DHardlineWithoutBreakParent => true
  | DBreakParent => rest width
  end.

Definition fitsFrom (mode : Mode) (doc : Doc) (rest : Z -> bool)
    (width : Z) : bool :=
  if (width <? 0)%Z then false else fits mode doc rest width.

Definition emitText (s : jsstring) (st : LayoutState) : LayoutState :=
  {| out := out st ++ s;
     pos := pos st + getStringWidth s;
     shouldRemeasure := shouldRemeasure st |}.

Definition emitSpace (st : LayoutState) : LayoutState :=
  {| out := out st ++ [SPACE];
     pos := pos st + 1;
     shouldRemeasure := shouldRemeasure st |}.

Definition emitNewline (ind : nat) (st : LayoutState) : LayoutState :=
  {| out := trimOutput (out st) ++ [LF] ++ repeat1 SPACE ind;
     pos := ind;
     shouldRemeasure := shouldRemeasure st |}.

Definition setRemeasure (b : bool) (st : LayoutState) : LayoutState :=
  {| out := out st; pos := pos st; shouldRemeasure := b |}.

(** The mode a group is printed in, and the state it is entered with.
    In flat mode the group stays flat unless it is marked broken; in
    break mode, or when a hard line was printed in flat mode since the
    last measure, it is measured against the rest of the line. *)
Definition enterGroup (mode : Mode) (contents : Doc) (rest : Z -> bool)
    (st : LayoutState) : Mode * LayoutState :=
  if match mode with
     | MODE_FLAT => negb (shouldRemeasure st)
     | MODE_BREAK => false
     end
  then (if hasBreakParent contents then MODE_BREAK else MODE_FLAT, st)
  else
    let st := setRemeasure false st in
    if negb (hasBreakParent contents)
       && fitsFrom MODE_FLAT contents rest
            (Z.of_nat printWidth - Z.of_nat (pos st))
    then (MODE_FLAT, st)
    else (MODE_BREAK, st).

(** One command [(ind, mode, doc)] of the printer, run to its end; [rest]
    measures the commands still on the stack. *)
Fixpoint layout (ind : nat) (mode : Mode) (doc : Doc) (rest : Z -> bool)
    (st : LayoutState) : LayoutState :=
  match doc with
  | DString s => emitText s st
  | DArray parts =>
      (fix layoutParts (parts : list Doc) (st : LayoutState)
         : LayoutState :=
         match parts with
         | [] => st
         | d :: parts' =>
             layoutParts parts'
               (layout ind mode d (fits mode (DArray parts') rest) st)
         end) parts st
  | DIndent c => layout (ind + tabWidth) mode c rest st
  | DAlign n c => layout (ind + n) mode c rest st
  | DGroup c =>
      layout ind (fst (enterGroup mode c rest st)) c rest
        (snd (enterGroup mode c rest st))
  | DIfBreak b f =>
      match mode with
      | MODE_BREAK => layout ind mode b rest st
      | MODE_FLAT => layout ind mode f rest st
      end
  | DLine =>
      match mode with
      | MODE_FLAT => emitSpace st
      | MODE_BREAK => emitNewline ind st
      end
  | DHardlineWithoutBreakParent =>
      match mode with
      | MODE_FLAT => emitNewline ind (setRemeasure true st)
      | MODE_BREAK => emitNewline ind st
      end
  | DBreakParent => st
  end.

Definition layoutStart : LayoutState :=
  {| out := []; pos := 0; shouldRemeasure := false |}.

Definition printDocToString (doc : Doc) : jsstring :=
  out (layout 0 MODE_BREAK doc (fun _ => true) layoutStart).
End Layout.

(** ** Entries *)

Section Printer.
Variable shortestRoundTrip : number -> jsstring.
(** [parse(text, {as: "whitespace in document"})] and
    [parse(text, {as: "whitespace in node"})] *)
Variable parseLineSpace : jsstring -> list LineSpace.
Variable parseNodeSpace : jsstring -> list NodeSpace.
Variable getStringWidth : jsstring -> nat.

Definition printTag (tag : Tag) : list jsstring :=
  [lit "("; trim (orEmpty (tag_leading tag));
   printIdentifier {| name := tag_name tag |};
   trim (orEmpty (tag_trailing tag)); lit ")"].

Definition printEntry (entry : Entry) : jsstring :=
  let parts1 :=
    match entry_name entry with
    | Some n =>
        [printIdentifier n;
         match equals entry with Some eq => eq | None => lit "=" end]
    | None => []
    end in
  let parts2 :=
    match entry_tag entry with
    | Some tag => printTag tag ++ [trim (orEmpty (betweenTagAndValue entry))]
    | None => []
    end in
  joinEmpty
    (parts1 ++ parts2 ++ [printValue shortestRoundTrip (value entry)]).

(** ** Block comments

    The comment of [printLineSpace] and the comment of
    [addCommentToHeader]: the same test, another trimming of the lines
    and another separator. *)

Definition startsWithStar (line : jsstring) (i : nat) : bool :=
  (i =? 0) || startsWith (trimStart line) [STAR].

Definition lineSpaceComment (text : jsstring) : Doc :=
  let lines := splitLines text in
  if (length lines =? 1) || negb (every startsWithStar lines)
  then builders.join builders.hardline (map DString lines)
  else
    builders.join builders.hardline
      (DString (trimStart (hd [] lines))
       :: map (fun line => DString (lit " " ++ trimStart line)) (tl lines)).

Definition headerComment (text : jsstring) : Doc :=
  let lines := splitLines text in
  if (length lines =? 1) || negb (every startsWithStar lines)
  then builders.join builders.hardlineWithoutBreakParent (map DString lines)
  else
    builders.join builders.hardlineWithoutBreakParent
      (DString (trim (hd [] lines))
       :: map (fun line => DString (lit " " ++ trim line)) (tl lines)).

(** ** The recursive printer

    [printNode] calls itself on the nodes of a child block and on the
    nodes a slashdash token of the tokenizer carries; the tokenizer is
    not part of the program, so the depth of these calls is bounded by a
    counter, and a printer that runs out of it returns [None]. *)

Definition bind {A B} (c : option A) (k : A -> option B) : option B :=
  match c with Some x => k x | None => None end.

Notation "x <- c ;; k" := (bind c (fun x => k))
  (at level 61, c at next level, right associativity).

Fixpoint foldM {A S} (step : S -> A -> option S) (l : list A) (st : S)
  : option S :=
  match l with
  | [] => Some st
  | x :: l' => st' <- step st x ;; foldM step l' st'
  end.

Fixpoint mapM_from {A B} (f : A -> nat -> option B) (i : nat) (l : list A)
  : option (list B) :=
  match l with
  | [] => Some []
  | x :: l' => y <- f x i ;; ys <- mapM_from f (S i) l' ;; Some (y :: ys)
  end.

(** The variables of the loop of [printLineSpace]. *)
Record LineSpaceState := {
  parts : list Doc;
  hasAddedEmptyLine : bool;
  hasAddedNonEmptyContent : bool;
  lastWasNewline : bool }.

(** The variables [header] and [lastHeaderItem] of [printNode].  An item
    is an array that [header] holds by reference; [lastHeaderItem] is
    either one of the arrays of [header], named by its index, or an array
    that [header] does not hold. *)
Inductive ItemRef :=
| InHeader (index : nat)
| Detached (item : list Doc).

Record HeaderState := {
  header : list (list Doc);
  lastHeaderItem : ItemRef }.

Definition continuation : Doc :=
  builders.ifBreak (DString [SPACE; BACKSLASH]) (DString []).

Fixpoint pushAt (i : nat) (d : Doc) (h : list (list Doc))
  : list (list Doc) :=
  match h, i with
  | item :: rest, 0 => (item ++ [d]) :: rest
  | item :: rest, S j => item :: pushAt j d rest
  | [], _ => []
  end.

(** [lastHeaderItem.push(continuation)] *)
Definition pushContinuation (st : HeaderState) : HeaderState :=
  match lastHeaderItem st with
  | InHeader i =>
      {| header := pushAt i continuation (header st);
         lastHeaderItem := InHeader i |}
  | Detached item =>
      {| header := header st;
         lastHeaderItem := Detached (item ++ [continuation]) |}
  end.

(** [header.push((lastHeaderItem = item))] *)
Definition pushLast (item : list Doc) (st : HeaderState) : HeaderState :=
  {| header := header st ++ [item];
     lastHeaderItem := InHeader (length (header st)) |}.

(** [header.push(item)], [lastHeaderItem] unchanged *)
Definition pushItem (item : list Doc) (st : HeaderState) : HeaderState :=
  {| header := header st ++ [item];
     lastHeaderItem := lastHeaderItem st |}.

(** [lastHeaderItem = []] *)
Definition detach (st : HeaderState) : HeaderState :=
  {| header := header st; lastHeaderItem := Detached [] |}.

Definition headerGroup (name : jsstring) (nameAlign : nat)
    (header : list (list Doc)) : Doc :=
  let joinedHeader := builders.join builders.line (map DArray header) in
  builders.group
    (DArray
       [DString name; continuation;
        builders.ifBreak
          (builders.align nameAlign (DArray [builders.line; joinedHeader]))
          (DArray [builders.line; joinedHeader])]).

Section Body.
(** The printer the body calls where the source calls [printNode]. *)
Variable printNode : Node -> bool -> option Doc.

Definition lineSpaceStep (st : LineSpaceState) (whitespace : LineSpace)
  : option LineSpaceState :=
  match whitespace with
  | LSNewline =>
      let st1 :=
        if lastWasNewline st && hasAddedNonEmptyContent st
           && negb (hasAddedEmptyLine st)
        then {| parts := parts st ++ [DString []];
                hasAddedEmptyLine := true;
                hasAddedNonEmptyContent := hasAddedNonEmptyContent st;
                lastWasNewline := lastWasNewline st |}
        else st in
      Some {| parts := parts st1;
              hasAddedEmptyLine := hasAddedEmptyLine st1;
              hasAddedNonEmptyContent := hasAddedNonEmptyContent st1;
              lastWasNewline := true |}
  | LSSpace => Some st
  | LSSingleline text =>
      Some {| parts := parts st ++ [DString (trim (slice_0_m1 text))];
              hasAddedEmptyLine := false;
              hasAddedNonEmptyContent := true;
              lastWasNewline := true |}
  | LSMultiline text =>
      Some {| parts := parts st ++ [lineSpaceComment text];
              hasAddedEmptyLine := false;
              hasAddedNonEmptyContent := true;
              lastWasNewline := false |}
  | LSSlashdash value =>
      printed <- printNode value false ;;
      Some {| parts := parts st ++ [DArray [DString (lit "/-"); printed]];
              hasAddedEmptyLine := false;
              hasAddedNonEmptyContent := true;
              lastWasNewline := false |}
  | LSOther => Some st
  end.

Definition lineSpaceInit (previousWasNewline : bool) : LineSpaceState :=
  {| parts := [];
     hasAddedEmptyLine := false;
     hasAddedNonEmptyContent := previousWasNewline;
     lastWasNewline := previousWasNewline |}.

Definition printLineSpaceTokens (tokens : list LineSpace)
    (previousWasNewline : bool) : option (list Doc) :=
  st <- foldM lineSpaceStep tokens (lineSpaceInit previousWasNewline) ;;
  Some (parts st).

Definition printLineSpace (text : jsstring) (previousWasNewline : bool)
  : option (list Doc) :=
  printLineSpaceTokens (parseLineSpace text) previousWasNewline.

Definition printDocument (document : Document) : option Doc :=
  nodes <- mapM_from (fun node i => printNode node (i =? 0)) 0
             (nodes document) ;;
  trailing <- (if truthy (document_trailing document)
               then printLineSpace (orEmpty (document_trailing document))
                      false
               else Some []) ;;
  Some (builders.join builders.hardline
          (builders.join builders.hardline nodes :: trailing)).

(** The inner [switch] of a line escape.  The [multiline] case splits
    the text of the enclosing line escape, and runs on into the
    [singleline] case. *)
Definition singlelineItem (text : jsstring) : list Doc :=
  [builders.breakParent;
   DString ([BACKSLASH; SPACE] ++ trim (slice_0_m1 text))].

Definition lineEscapeStep (whitespace_text : jsstring) (st : HeaderState)
    (nestedWhitespace : LineSpace) : HeaderState :=
  match nestedWhitespace with
  | LSMultiline text =>
      let st1 :=
        pushLast [headerComment whitespace_text] (pushContinuation st) in
      pushItem (singlelineItem text) (detach (pushContinuation st1))
  | LSSingleline text =>
      pushItem (singlelineItem text) (detach (pushContinuation st))
  | _ => st
  end.

Definition headerStep (st : HeaderState) (whitespace : NodeSpace)
  : option HeaderState :=
  match whitespace with
  | NSSpace => Some st
  | NSLineEscape text =>
      Some (fold_left (lineEscapeStep text)
              (parseLineSpace (slice_1 text)) st)
  | NSSlashdashEntry value =>
      Some (pushLast [DString (lit "/-"); DString (printEntry value)]
              (pushContinuation st))
  | NSSlashdashDocument value =>
      printed <- printDocument value ;;
      Some (pushLast
              [DString (lit "/-");
               DArray [DString (lit "{"); printed; DString (lit "}")]]
              (pushContinuation st))
  | NSMultiline text =>
      Some (pushLast [headerComment text] (pushContinuation st))
  | NSOther => Some st
  end.

Definition addCommentToHeader (text : jsstring) (st : HeaderState)
  : option HeaderState :=
  foldM headerStep (parseNodeSpace text) st.

Definition entryStep (st : HeaderState) (entry : Entry)
  : option HeaderState :=
  st1 <- (if truthy (entry_leading entry)
          then addCommentToHeader (orEmpty (entry_leading entry)) st
          else Some st) ;;
  Some (pushLast [DString (printEntry entry)] (pushContinuation st1)).

(** [name] with the type annotation in front *)
Definition printName (node : Node) : jsstring :=
  let name := printIdentifier (node_name node) in
  match node_tag node with
  | Some tag =>
      joinEmpty (printTag tag)
      ++ trim (orEmpty (betweenTagAndName node)) ++ name
  | None => name
  end.

(** The test that moves a sole first argument into [name].
    [entries[0] === argEntries[0]] compares two references into the
    same array of entries: with one argument entry, they are the same
    object exactly when the first entry is an argument. *)
Definition fusedArgument (node : Node) : option Entry :=
  match getArgumentEntries node, entries node with
  | [arg], first :: _ =>
      if isArgument first
         && (negb (truthy (entry_leading arg))
             || negb (0 <? length (trim (orEmpty (entry_leading arg)))))
      then Some arg else None
  | _, _ => None
  end.

(** The name the header group starts with, and the entries that
    become header items. *)
Definition headerName (node : Node) : jsstring :=
  match fusedArgument node with
  | Some arg => printName node ++ lit " " ++ printEntry arg
  | None => printName node
  end.

Definition headerEntries (node : Node) : list Entry :=
  match fusedArgument node with
  | Some _ => tl (entries node)
  | None => entries node
  end.

(** [header] and [lastHeaderItem] once the entries and the trivia in
    front of the child block are in. *)
Definition headerOfNode (node : Node) : option HeaderState :=
  st <- foldM entryStep (headerEntries node)
          {| header := []; lastHeaderItem := Detached [] |} ;;
  if truthy (beforeChildren node)
  then addCommentToHeader (orEmpty (beforeChildren node)) st
  else Some st.

Definition nameAlign (node : Node) : nat :=
  getStringWidth (printName node) + 1.

(** Whether the node is printed without a block: it has no child node
    and no trivia inside its braces. *)
Definition withoutBlock (node : Node) : bool :=
  negb (hasChildren node)
  && negb (truthy
             match children node with
             | Some d => document_trailing d
             | None => None
             end).

(** The last push onto [header]: the empty block, or the opening
    brace. *)
Definition closeHeader (node : Node) (st : HeaderState) : HeaderState :=
  if withoutBlock node then
    match children node with
    | Some _ => pushItem [DString (lit "{}")] (pushContinuation st)
    | None => st
    end
  else pushItem [DString (lit "{")] (pushContinuation st).

(** The group of the node's header. *)
Definition nodeGroup (node : Node) : option Doc :=
  st <- headerOfNode node ;;
  Some (headerGroup (headerName node) (nameAlign node)
          (header (closeHeader node st))).

(** The text [printLineSpace] is given for the trivia after the node. *)
Definition trailingText (node : Node) : jsstring :=
  let trailing := orEmpty (trailing node) in
  if endsWith trailing [SEMICOLON] then slice_0_m1 trailing else trailing.

Definition printNodeBody (node : Node) (isFirstNode : bool)
  : option Doc :=
  group <- nodeGroup node ;;
  partsLeading <- (if truthy (leading node)
                   then printLineSpace (orEmpty (leading node))
                          (negb isFirstNode)
                   else Some []) ;;
  main <- (if withoutBlock node then Some group
           else
             match children node with
             | Some d =>
                 printed <- printDocument d ;;
                 Some (DArray
                         [group;
                          builders.indent
                            (DArray [builders.hardline; printed]);
                          builders.hardline;
                          DString (lit "}")])
             | None => None
             end) ;;
  partsTrailing <- (if truthy (trailing node)
                    then printLineSpace (trailingText node) false
                    else Some []) ;;
  Some (builders.join builders.hardline
          (partsLeading ++ [main] ++ partsTrailing)).
End Body.

Fixpoint printNode (depth : nat) (node : Node) (isFirstNode : bool)
  : option Doc :=
  match depth with
  | 0 => None
  | S depth' => printNodeBody (printNode depth') node isFirstNode
  end.

(** [printer.print] on the root of the tree *)
Definition print (depth : nat) (root : Document) : option Doc :=
  printed <- printDocument (printNode depth) root ;;
  Some (DArray [printed; builders.hardline]).
End Printer.

(** * The vocabulary of the properties *)

(** [pat] occurs in [s]. *)
Definition occursIn (pat s : jsstring) : Prop :=
  exists pre post, s = pre ++ pat ++ post.

(** The needle of the hash loop: a double quote and [k] hashes. *)
Definition needle (k : nat) : jsstring := DQUOTE :: repeat1 HASH k.

(** The string of the spec's example: [a], a double quote, [#], [b]. *)
Definition quoteHashExample : jsstring := lit "a" ++ [DQUOTE] ++ lit "#b".

(** The binary64 value 2000, which is what the numeral [2e3] denotes. *)
Definition twoThousand : number := S754_finite false 8796093022208000 (-42).


(** ** Tokens and blank lines *)

Definition isNewline (t : LineSpace) : bool :=
  match t with LSNewline => true | _ => false end.

(** The tokens that push no content: newlines, spaces and the tokens no
    [case] names. *)
Definition isGap (t : LineSpace) : bool :=
  match t with LSNewline | LSSpace | LSOther => true | _ => false end.

Definition isSingleline (t : LineSpace) : bool :=
  match t with LSSingleline _ => true | _ => false end.

Definition countNewlines (tokens : list LineSpace) : nat :=
  length (filter isNewline tokens).

Definition blank : Doc := DString [].

Definition blankIf (b : bool) : list Doc := if b then [blank] else [].

Definition commentA : jsstring := lit "// a" ++ [LF].

Definition commentB : jsstring := lit "// b" ++ [LF].

Definition isComment (t : LineSpace) : bool :=
  match t with LSSingleline _ | LSMultiline _ => true | _ => false end.

(** ** Header items *)




(** Some item of the header holds a break parent. *)
Definition forcesBreak (header : list (list Doc)) : bool :=
  existsb (existsb hasBreakParent) header.

Section LayoutLines.
Variable getStringWidth : jsstring -> nat.
Variable printWidth : nat.
Variable tabWidth : nat.

End LayoutLines.

(** ** The calls of [printNode]

    The nodes [printNode] is called on while it prints a node are the
    nodes of the child block and the nodes of the slashdash tokens the
    tokenizer makes of the trivia.  A node is printable at [depth] when
    these calls nest less than [depth] deep. *)

Definition slashdashNodes (tokens : list LineSpace) : list Node :=
  flat_map (fun t => match t with LSSlashdash v => [v] | _ => [] end) tokens.

Definition slashdashDocuments (tokens : list NodeSpace) : list Document :=
  flat_map (fun t => match t with NSSlashdashDocument v => [v] | _ => [] end)
           tokens.

Section Callees.
Variable parseLineSpace : jsstring -> list LineSpace.
Variable parseNodeSpace : jsstring -> list NodeSpace.

Definition lineSpaceCallees (text : option jsstring) : list Node :=
  if truthy text then slashdashNodes (parseLineSpace (orEmpty text))
  else [].

Definition documentCallees (d : Document) : list Node :=
  nodes d ++ lineSpaceCallees (document_trailing d).

Definition headerCallees (text : option jsstring) : list Node :=
  if truthy text
  then flat_map documentCallees
         (slashdashDocuments (parseNodeSpace (orEmpty text)))
  else [].

Definition callees (node : Node) : list Node :=
  flat_map (fun e => headerCallees (entry_leading e)) (headerEntries node)
  ++ headerCallees (beforeChildren node)
  ++ lineSpaceCallees (leading node)
  ++ match children node with
     | Some d => documentCallees d
     | None => []
     end
  ++ (if truthy (trailing node)
      then slashdashNodes (parseLineSpace (trailingText node)) else []).

Fixpoint printable (depth : nat) (node : Node) : bool :=
  match depth with
  | 0 => false
  | S depth' => forallb (printable depth') (callees node)
  end.
End Callees.

(** The printer [rec] returns a document on every node of [l]. *)
Definition returnsOn (rec : Node -> bool -> option Doc) (l : list Node)
  : Prop :=
  forall v b, In v l -> exists d, rec v b = Some d.

(** The block comment of the test [comments] of the repository: its
    second line is indented by four spaces. *)
Definition moarComments : jsstring :=
  lit "/*" ++ [LF] ++ lit "    * moar comments" ++ [LF] ++ lit " */".

(** [text] between double quotes *)
Definition quoted (text : jsstring) : jsstring := [DQUOTE] ++ text ++ [DQUOTE].

(** ** Sample trees

    A tokenizer here is the table of the trivia texts of one sample and of
    the tokens [@bgotink/kdl] makes of them; widths are counted in code
    units, which is what [getStringWidth] gives on ASCII text. *)

Module Samples.
Definition lookup {T} (table : list (jsstring * list T)) (text : jsstring)
  : list T :=
  match find (fun row => streq (fst row) text) table with
  | Some row => snd row
  | None => []
  end.

Definition noRoundTrip : number -> jsstring := fun _ => [].
Definition width : jsstring -> nat := @length N.

Definition argument (v : Value) (leading : option jsstring) : Entry :=
  {| entry_name := None; equals := None; entry_tag := None;
     betweenTagAndValue := None; value := v; entry_leading := leading |}.

Definition property (n : jsstring) (v : Value) (leading : option jsstring)
  : Entry :=
  {| entry_name := Some {| name := n |}; equals := Some (lit "=");
     entry_tag := None; betweenTagAndValue := None; value := v;
     entry_leading := leading |}.

Definition plainNode (n : jsstring) (entries : list Entry)
    (trailing : option jsstring) : Node :=
  mkNode {| name := n |} None None entries None None None trailing.

(** Spaces and line ends, the trivia of most samples. *)
Definition spaceTokens : jsstring -> list LineSpace :=
  lookup [(lit " ", [LSSpace]); ([LF], [LSNewline])].
Definition spaceInNode : jsstring -> list NodeSpace :=
  lookup [(lit " ", [NSSpace])].

Definition format (parseLineSpace : jsstring -> list LineSpace)
    (parseNodeSpace : jsstring -> list NodeSpace) (printWidth : nat)
    (root : Document) : option jsstring :=
  match print noRoundTrip parseLineSpace parseNodeSpace width 8 root with
  | Some doc => Some (printDocToString width printWidth 2 doc)
  | None => None
  end.

(** [node "value"] and a line end *)
Definition oneArgument : Node :=
  plainNode (lit "node")
    [argument (VString (lit "value")) (Some (lit " "))] (Some [LF]).

(** [n a=#true \ // c], a line end, [b=#false] and a line end: the
    second property has a line escape with a comment in front. *)
Definition escapeText : jsstring := [BACKSLASH] ++ lit " // c" ++ [LF].
Definition beforeB : jsstring := lit " " ++ escapeText ++ lit "  ".

Definition commentTokens : jsstring -> list LineSpace :=
  lookup [(lit " // c" ++ [LF], [LSSpace; LSSingleline (lit "// c" ++ [LF])]);
          ([LF], [LSNewline])].
Definition commentInNode : jsstring -> list NodeSpace :=
  lookup [(lit " ", [NSSpace]);
          (beforeB, [NSSpace; NSLineEscape escapeText; NSSpace])].

Definition commented : Node :=
  plainNode (lit "n")
    [property (lit "a") (VBool true) (Some (lit " "));
     property (lit "b") (VBool false) (Some beforeB)] (Some [LF]).

(** [node /-"arg" {], a line end, [child] two columns in, a line end, the
    closing brace and a line end: a slashdash entry in front of the
    block, as in the test [comments] of the repository. *)
Definition slashdashText : jsstring :=
  lit " /-" ++ [DQUOTE] ++ lit "arg" ++ [DQUOTE] ++ lit " ".
Definition childLeading : jsstring := [LF] ++ lit "  ".

Definition slashdashTokens : jsstring -> list LineSpace :=
  lookup [(childLeading, [LSNewline; LSSpace]); ([LF], [LSNewline])].
Definition slashdashInNode : jsstring -> list NodeSpace :=
  lookup [(slashdashText,
           [NSSpace; NSSlashdashEntry (argument (VString (lit "arg")) None);
            NSSpace])].

Definition slashdashed : Node :=
  mkNode {| name := lit "node" |} None None []
    (Some (mkDocument
             [mkNode {| name := lit "child" |} None None [] None
                (Some childLeading) None (Some [LF])]
             None))
    None (Some slashdashText) (Some [LF]).

(** [Samples.commented] behind a slashdash marker, and a node [m] after
    it: the tokenizer hands the slashdashed node over as a token of the
    leading trivia of [m]. *)
Definition markerText : jsstring :=
  lit "/-n a=#true " ++ escapeText ++ lit "  b=#false" ++ [LF].
Definition markerTokens : jsstring -> list LineSpace :=
  lookup [(markerText, [LSSlashdash commented]);
          (lit " // c" ++ [LF], [LSSpace; LSSingleline (lit "// c" ++ [LF])]);
          ([LF], [LSNewline])].
Definition behindMarker : Document :=
  mkDocument
    [mkNode {| name := lit "m" |} None None [] None (Some markerText) None
       (Some [LF])]
    None.

(** [child;] and [other] on one line, each ended after its name. *)
Definition child : Node := plainNode (lit "child") [] (Some [SEMICOLON]).
Definition other : Node :=
  mkNode {| name := lit "other" |} None None [] None (Some (lit " ")) None
    (Some [LF]).

(** A node whose name is one backslash. *)
Definition backslashNode : Node := plainNode [BACKSLASH] [] (Some [LF]).

(** The tree of the test [collapse lines] of the repository: a node with
    a property and three arguments, two line escapes in its header, and a
    block whose only child comes after three blank lines. *)
Definition escapedLine : jsstring := [BACKSLASH; LF] ++ lit "      ".
Definition blankLines : jsstring := [LF; LF; LF; LF] ++ lit "        ".

Definition testTokens : jsstring -> list LineSpace :=
  lookup [([LF], [LSNewline]);
          (blankLines, [LSNewline; LSNewline; LSNewline; LSNewline; LSSpace])].
Definition testInNode : jsstring -> list NodeSpace :=
  lookup [(lit " ", [NSSpace]);
          (escapedLine, [NSLineEscape [BACKSLASH; LF]; NSSpace])].

Definition collapseLines : Node :=
  mkNode {| name := lit "node" |} None None
    [property (lit "prop") (VBool true) (Some (lit " "));
     argument (VString (lit "arg")) (Some escapedLine);
     argument (VBool false) (Some (lit " "));
     argument (VNumber twoThousand) (Some (lit " "))]
    (Some (mkDocument
             [mkNode {| name := lit "child" |} None None [] None
                (Some blankLines) None (Some [SEMICOLON])]
             (Some [LF])))
    None (Some escapedLine) (Some [LF]).

(** The tree of the second case of the test [long line]: an argument and
    six properties, more than eighty columns on one line. *)
Definition longLine : Node :=
  plainNode (lit "node")
    [argument (VString (lit "single argument")) (Some (lit " "));
     property (lit "prop1") (VBool false) (Some (lit " "));
     property (lit "prop2") (VNumber twoThousand) (Some (lit " "));
     property (lit "prop3") (VString (lit "arg")) (Some (lit " "));
     property (lit "prop4") (VString (lit "arg")) (Some (lit " "));
     property (lit "prop5") (VString (lit "arg")) (Some (lit " "));
     property (lit "prop6") (VString (lit "arg")) (Some (lit " "))]
    (Some [LF]).
(** The tree of the test [comments]: a line comment, a block comment and
    a slashdashed node in front of a node whose header holds a line
    escape and a slashdashed argument, and whose block holds three
    children with comments and blank lines between them. *)
Definition lookieText : jsstring := lit "// lookie here, a comment" ++ [LF].
Definition insideText : jsstring := lit "// comment inside" ++ [LF].
Definition otherInsideText : jsstring :=
  lit "// other comment inside" ++ [LF].

Definition commentedNode : Node :=
  plainNode (lit "commented")
    [argument (VString (lit "node")) (Some (lit "   "))]
    (Some [SEMICOLON]).

Definition topLeading : jsstring :=
  lookieText ++ moarComments ++ [LF] ++ lit "/-commented   "
  ++ quoted (lit "node") ++ [SEMICOLON; LF; LF].
Definition firstLeading : jsstring :=
  [LF; LF] ++ lit "  " ++ insideText ++ lit "  ".
Definition secondLeading : jsstring :=
  [LF; LF] ++ lit "  " ++ otherInsideText ++ lit "  ".
Definition thirdLeading : jsstring := [LF] ++ lit "  ".
Definition beforeBlock : jsstring :=
  lit " " ++ [BACKSLASH; LF] ++ lit "/-" ++ quoted (lit "commented arg")
  ++ lit " ".

Definition commentsTokens : jsstring -> list LineSpace :=
  lookup [(topLeading,
           [LSSingleline lookieText; LSMultiline moarComments; LSNewline;
            LSSlashdash commentedNode; LSNewline; LSNewline]);
          (firstLeading,
           [LSNewline; LSNewline; LSSpace; LSSingleline insideText;
            LSSpace]);
          (secondLeading,
           [LSNewline; LSNewline; LSSpace; LSSingleline otherInsideText;
            LSSpace]);
          (thirdLeading, [LSNewline; LSSpace]);
          ([LF], [LSNewline])].
Definition commentsInNode : jsstring -> list NodeSpace :=
  lookup [(lit "   ", [NSSpace]);
          (beforeBlock,
           [NSSpace; NSLineEscape [BACKSLASH; LF];
            NSSlashdashEntry
              (argument (VString (lit "commented arg")) None);
            NSSpace])].

Definition commentsTest : Document :=
  mkDocument
    [mkNode {| name := lit "not commented node" |} None None []
       (Some (mkDocument
                [mkNode {| name := lit "child" |} None None [] None
                   (Some firstLeading) None (Some [SEMICOLON]);
                 mkNode {| name := lit "other_child" |} None None [] None
                   (Some secondLeading) None (Some [LF]);
                 mkNode {| name := lit "third_child" |} None None [] None
                   (Some thirdLeading) None (Some [LF])]
                None))
       (Some topLeading) (Some beforeBlock) (Some [LF])]
    None.
End Samples.

(** The header of [Samples.commented], which a comment forces to break:
    [n], the first property, the comment and the second property. *)
Definition commentedHeader : HeaderState :=
  {| header :=
       [[DString (lit "a=#true"); continuation];
        singlelineItem (lit "// c" ++ [LF]);
        [DString (lit "b=#false")]];
     lastHeaderItem := InHeader 2 |}.

Unset Implicit Arguments.

(** ** Strings and lines *)

(** A unit of a quoted string that needs no escape in it: no double quote
    and no control unit. *)
Definition quotable (c : N) : Prop := c <> DQUOTE /\ (0x20 <= c)%N.

(** A unit that ends no line. *)
Definition notTerminator (c : N) : bool := negb (isLineTerminator c).

(** [lines.join] with a line feed between the lines *)
Fixpoint joinLines (lines : list jsstring) : jsstring :=
  match lines with
  | [] => []
  | [l] => l
  | l :: rest => l ++ LF :: joinLines rest
  end.

(** The lines [printLineSpace] writes for a block comment. *)
Definition commentLines (text : jsstring) : list jsstring :=
  let lines := splitLines text in
  if (length lines =? 1) || negb (every startsWithStar lines)
  then lines
  else trimStart (hd [] lines)
       :: map (fun line => lit " " ++ trimStart line) (tl lines).

(** ** What [printLineSpace] writes *)

(** The part a token pushes as content: the comment, or the slashdash
    node that [rec] printed. *)
Definition contentOf (rec : Node -> bool -> option Doc) (t : LineSpace)
  : option (list Doc) :=
  match t with
  | LSSingleline text => Some [DString (trim (slice_0_m1 text))]
  | LSMultiline text => Some [lineSpaceComment text]
  | LSSlashdash value =>
      match rec value false with
      | Some printed => Some [DArray [DString (lit "/-"); printed]]
      | None => None
      end
  | LSNewline | LSSpace | LSOther => Some []
  end.

Fixpoint contentsOf (rec : Node -> bool -> option Doc)
    (tokens : list LineSpace) : option (list Doc) :=
  match tokens with
  | [] => Some []
  | t :: tokens' =>
      match contentOf rec t, contentsOf rec tokens' with
      | Some c, Some cs => Some (c ++ cs)
      | _, _ => None
      end
  end.

(** [Woven start contents parts mayBlank]: [parts] is [contents], in
    order, with blank lines put in; a blank line comes only where one may
    come, which is after a content and, when [start] is set, at the
    front, and never after another blank line.  [mayBlank] tells whether
    a blank line may come next. *)
Inductive Woven (start : bool) : list Doc -> list Doc -> bool -> Prop :=
| Woven_start : Woven start [] [] start
| Woven_blank contents parts :
    Woven start contents parts true ->
    Woven start contents (parts ++ [blank]) false
| Woven_content contents parts mayBlank c :
    Woven start contents parts mayBlank ->
    Woven start (contents ++ [c]) (parts ++ [c]) true.

(** Whether the next newline may push a blank line, as far as the two
    flags for content and blank lines go. *)
Definition mayPushBlank (st : LineSpaceState) : bool :=
  hasAddedNonEmptyContent st && negb (hasAddedEmptyLine st).

(** ** What a header holds *)

(** [l1] is [l2] with some elements left out. *)
Inductive Subseq {A : Type} : list A -> list A -> Prop :=
| Subseq_nil l : Subseq [] l
| Subseq_skip x l1 l2 : Subseq l1 l2 -> Subseq l1 (x :: l2)
| Subseq_take x l1 l2 : Subseq l1 l2 -> Subseq (x :: l1) (x :: l2).

(** The first document of every item of a header. *)
Definition itemHeads (h : list (list Doc)) : list (option Doc) :=
  map (@hd_error Doc) h.

(** The texts of the entries, as the first documents of their items. *)
Definition entryHeads (shortestRoundTrip : number -> jsstring)
    (es : list Entry) : list (option Doc) :=
  map (fun e => Some (DString (printEntry shortestRoundTrip e))) es.

Definition nonEmptyItems (h : list (list Doc)) : Prop :=
  Forall (fun item => item <> []) h.

(** A line escape that holds a comment. *)
Definition escapeHoldsComment (parseLineSpace : jsstring -> list LineSpace)
    (t : NodeSpace) : bool :=
  match t with
  | NSLineEscape text => existsb isComment (parseLineSpace (slice_1 text))
  | _ => false
  end.

(** The trivia texts [addCommentToHeader] is called on for a node: the
    leading trivia of the entries that become header items, and the
    trivia in front of the child block. *)
Definition triviaOf (e : Entry) : list jsstring :=
  if truthy (entry_leading e) then [orEmpty (entry_leading e)] else [].

Definition headerTrivia (node : Node) : list jsstring :=
  flat_map triviaOf (headerEntries node)
  ++ (if truthy (beforeChildren node)
      then [orEmpty (beforeChildren node)] else []).

(** A step from [st] to [st'] keeps the items of the header: the items of
    [st'] start as the items of [st] do, and none is empty. *)
Definition keepsItems (st st' : HeaderState) : Prop :=
  nonEmptyItems (header st) ->
  nonEmptyItems (header st')
  /\ exists extra, itemHeads (header st') = itemHeads (header st) ++ extra.

(** No slashdash child block among the tokens of a trivia text, and in
    the trivia of the header. *)
Definition cleanText (parseNodeSpace : jsstring -> list NodeSpace)
    (text : jsstring) : bool :=
  match slashdashDocuments (parseNodeSpace text) with
  | [] => true
  | _ => false
  end.

Definition noSlashdashDocument (parseNodeSpace : jsstring -> list NodeSpace)
    (node : Node) : bool :=
  forallb (cleanText parseNodeSpace) (headerTrivia node).

(** Some line escape of a trivia text, and of the trivia of the header,
    holds a comment. *)
Definition commentIn (parseLineSpace : jsstring -> list LineSpace)
    (parseNodeSpace : jsstring -> list NodeSpace) (text : jsstring) : bool :=
  existsb (escapeHoldsComment parseLineSpace) (parseNodeSpace text).

Definition escapedComment (parseLineSpace : jsstring -> list LineSpace)
    (parseNodeSpace : jsstring -> list NodeSpace) (node : Node) : bool :=
  existsb (commentIn parseLineSpace parseNodeSpace) (headerTrivia node).

(** ** A header on one line *)

(** A token of the trivia of a header that leaves the header as it is: a
    blank, or a line escape that holds no comment. *)
Definition plainToken (parseLineSpace : jsstring -> list LineSpace)
    (t : NodeSpace) : bool :=
  match t with
  | NSSpace | NSOther => true
  | NSLineEscape text =>
      negb (existsb isComment (parseLineSpace (slice_1 text)))
  | _ => false
  end.

Definition plainHeaderTrivia (parseLineSpace : jsstring -> list LineSpace)
    (parseNodeSpace : jsstring -> list NodeSpace) (node : Node) : bool :=
  forallb (fun text => forallb (plainToken parseLineSpace)
                         (parseNodeSpace text))
          (headerTrivia node).

(** The brace that ends a header: of an empty block, of a block, or none. *)
Definition braceText (node : Node) : list jsstring :=
  if withoutBlock node then
    match children node with
    | Some _ => [lit "{}"]
    | None => []
    end
  else [lit "{"].

(** The texts of the items of a header without comments and slashdashes. *)
Definition itemTexts (shortestRoundTrip : number -> jsstring) (node : Node)
  : list jsstring :=
  map (printEntry shortestRoundTrip) (headerEntries node) ++ braceText node.

(** The items of such a header: every item but the last ends with the
    continuation. *)
Fixpoint plainItems (texts : list jsstring) : list (list Doc) :=
  match texts with
  | [] => []
  | [t] => [[DString t]]
  | t :: rest => [DString t; continuation] :: plainItems rest
  end.

(** Texts with one space between them, and their width with the empty
    continuations between them. *)
Fixpoint spaced (texts : list jsstring) : jsstring :=
  match texts with
  | [] => []
  | [t] => t
  | t :: rest => t ++ [SPACE] ++ spaced rest
  end.

Fixpoint itemsWidth (getStringWidth : jsstring -> nat)
    (texts : list jsstring) : nat :=
  match texts with
  | [] => 0
  | [t] => getStringWidth t
  | t :: rest =>
      getStringWidth t + getStringWidth [] + 1
      + itemsWidth getStringWidth rest
  end.

(** The header of a node on one line, and the width it is measured
    with. *)
Definition headerLine (shortestRoundTrip : number -> jsstring) (node : Node)
  : jsstring :=
  headerName shortestRoundTrip node ++ [SPACE]
  ++ spaced (itemTexts shortestRoundTrip node).

Definition flatWidth (getStringWidth : jsstring -> nat)
    (shortestRoundTrip : number -> jsstring) (node : Node) : nat :=
  getStringWidth (headerName shortestRoundTrip node) + getStringWidth [] + 1
  + itemsWidth getStringWidth (itemTexts shortestRoundTrip node).

(** [measure] takes [k] columns off a width that is not negative, and
    hands on to [rest]. *)
Definition takes (measure : (Z -> bool) -> Z -> bool) (k : nat) : Prop :=
  forall rest width,
    (0 <= width)%Z ->
    measure rest width
    = if (width - Z.of_nat k <? 0)%Z then false
      else rest (width - Z.of_nat k)%Z.

(** The state of a header that holds the items of [texts] and nothing
    else. *)
Definition plainState (texts : list jsstring) (st : HeaderState) : Prop :=
  header st = plainItems texts
  /\ match texts with
     | [] => exists item, lastHeaderItem st = Detached item
     | _ => lastHeaderItem st = InHeader (length texts - 1)
     end.

(** ** Blocks and documents in the layout *)

Section LayoutRows.
Variable getStringWidth : jsstring -> nat.
Variable printWidth : nat.
Variable tabWidth : nat.

(** Documents in break mode, each after the first on a new line at the
    indentation [ind]. *)
Fixpoint layoutRows (ind : nat) (docs : list Doc) (rest : Z -> bool)
    (st : LayoutState) : LayoutState :=
  match docs with
  | [] => st
  | [d] => layout getStringWidth printWidth tabWidth ind MODE_BREAK d rest st
  | d :: docs' =>
      layoutRows ind docs' rest
        (emitNewline ind
           (layout getStringWidth printWidth tabWidth ind MODE_BREAK d
              (fun _ => true) st))
  end.
End LayoutRows.

(** The block of a node: the header group, the printed children and the
    printed trivia that ends the block. *)
Definition blockDoc (group : Doc) (printedNodes blockTrailing : list Doc)
  : Doc :=
  DArray
    [group;
     builders.indent
       (DArray
          [builders.hardline;
           builders.join builders.hardline
             (builders.join builders.hardline printedNodes
              :: blockTrailing)]);
     builders.hardline;
     DString (lit "}")].

(** ** Names and strings *)


Set Implicit Arguments.

(** * Properties *)

(** ** Strings *)

Lemma startsWith_iff (pat s : jsstring) :
  startsWith s pat = true <-> exists post, s = pat ++ post.
Proof.
  revert s. induction pat as [|p pat IH]; intros s; simpl.
  - split; [intros _; now exists s | intros _; now destruct s].
  - destruct s as [|c s]; simpl.
    + split; [discriminate | intros [post H]; discriminate].
    + rewrite andb_true_iff, N.eqb_eq, IH. split.
      * intros [-> [post ->]]. now exists post.
      * intros [post H]. injection H as -> ->. split; [reflexivity | now exists post].
Qed.

Lemma includes_unfold (c : N) (s pat : jsstring) :
  includes (c :: s) pat = startsWith (c :: s) pat || includes s pat.
Proof. reflexivity. Qed.

Lemma includes_iff (pat s : jsstring) :
  includes s pat = true <-> occursIn pat s.
Proof.
  induction s as [|c s IH].
  - change (includes [] pat) with (startsWith [] pat || false).
    rewrite orb_false_r, startsWith_iff. split.
    + intros [post H]. exists [], post. exact H.
    + intros [pre [post H]]. destruct pre; [|discriminate].
      exists post. exact H.
  - rewrite includes_unfold, orb_true_iff, startsWith_iff, IH. split.
    + intros [[post H] | [pre [post H]]].
      * exists [], post. exact H.
      * exists (c :: pre), post. simpl. now rewrite H.
    + intros [pre [post H]]. destruct pre as [|c' pre].
      * left. exists post. exact H.
      * right. injection H as _ H. now exists pre, post.
Qed.

Lemma streq_iff (a b : jsstring) : streq a b = true <-> a = b.
Proof.
  revert b. induction a as [|x a IH]; intros [|y b]; simpl;
    try (split; [discriminate | congruence]).
  - split; reflexivity.
  - rewrite andb_true_iff, N.eqb_eq, IH. split.
    + now intros [-> ->].
    + intros H. now injection H.
Qed.

(** The loop entered at [k] stops at the first counter from [k] on whose
    needle the text does not include. *)
Lemma hashLoop_first (s : jsstring) (k : nat) :
  k <= hashLoop s k
  /\ includes s (needle (hashLoop s k)) = false
  /\ forall j, k <= j < hashLoop s k -> includes s (needle j) = true.
Proof.
  funelim (hashLoop s k).
  - destruct H as (Hle & Hstop & Hbelow).
    repeat split; [lia | exact Hstop |].
    intros j Hj. destruct (Nat.eq_dec j k) as [-> | Hne].
    + exact found.
    + apply Hbelow. lia.
  - repeat split; [lia | assumption | intros j Hj; lia].
Qed.

Lemma numberOfHashes_minimal (s : jsstring) :
  ~ occursIn (needle (numberOfHashes s)) s
  /\ forall j, j < numberOfHashes s -> occursIn (needle j) s.
Proof.
  unfold numberOfHashes.
  destruct (hashLoop_first s 0) as (_ & Hstop & Hbelow). split.
  - rewrite <- includes_iff, Hstop. discriminate.
  - intros j Hj. apply includes_iff, Hbelow. lia.
Qed.

(** ** Literals *)

(** C2: [printValue] writes a string with the least [k] such that a double
    quote followed by [k] hashes does not occur in it: the needle of [k]
    does not occur and the needle of every smaller count does; with [k = 0]
    the output is the quoted string of [JSON.stringify], otherwise the text
    between a double quote on each side and exactly [k] hashes on each side.
    The string of the example (a, double quote, hash, b) is written with
    two hashes. *)
Theorem printValue_string_least_hashes
    (shortestRoundTrip : number -> jsstring) (v : jsstring) :
  let k := numberOfHashes v in
  ~ occursIn (DQUOTE :: repeat1 HASH k) v
  /\ (forall j, j < k -> occursIn (DQUOTE :: repeat1 HASH j) v)
  /\ printValue shortestRoundTrip (VString v)
     = (if k =? 0 then [DQUOTE] ++ quoteJSONBody v ++ [DQUOTE]
        else repeat1 HASH k ++ [DQUOTE] ++ v ++ [DQUOTE] ++ repeat1 HASH k)
  /\ numberOfHashes quoteHashExample = 2
  /\ printValue shortestRoundTrip (VString quoteHashExample)
     = lit "##" ++ [DQUOTE] ++ quoteHashExample ++ [DQUOTE] ++ lit "##".
Proof.
  intros k. destruct (numberOfHashes_minimal v) as [Hstop Hbelow].
  repeat split; try reflexivity; assumption.
Qed.

(** C7: [printValue] writes NaN as [#nan], the infinities as [#inf] and
    [#-inf], and every finite number as [Number::toString] of the stored
    value; a value holds no trace of its source spelling, and an integer of
    magnitude at most 2^53 is written as its decimal numeral whatever
    mantissa and exponent represent it, so 2000 is written [2000]. *)
Theorem printValue_number (shortestRoundTrip : number -> jsstring) :
  printValue shortestRoundTrip (VNumber S754_nan) = lit "#nan"
  /\ printValue shortestRoundTrip (VNumber (S754_infinity false)) = lit "#inf"
  /\ printValue shortestRoundTrip (VNumber (S754_infinity true)) = lit "#-inf"
  /\ (forall x, Number_isFinite x = true ->
        printValue shortestRoundTrip (VNumber x)
        = Number_toString shortestRoundTrip x)
  /\ (forall s m e n, integerValue m e = Some n -> (n <= MAX_SAFE)%N ->
        printValue shortestRoundTrip (VNumber (S754_finite s m e))
        = (if s then lit "-" else []) ++ decimal n)
  /\ integerValue 8796093022208000 (-42) = Some 2000%N
  /\ printValue shortestRoundTrip (VNumber twoThousand) = lit "2000".
Proof.
  repeat split; try reflexivity.
  - intros [s | s | | s m e] H; try discriminate; reflexivity.
  - intros s m e n Hn Hle. simpl. rewrite Hn.
    apply N.leb_le in Hle. now rewrite Hle.
Qed.

Lemma existsb_streq_In (s : jsstring) (l : list jsstring) :
  existsb (streq s) l = true <-> In s l.
Proof.
  rewrite existsb_exists. split.
  - intros [x [Hin Heq]]. apply streq_iff in Heq. now subst.
  - intros Hin. exists s. split; [assumption | now apply streq_iff].
Qed.



(** ** Block comments *)

Lemma splitLines_cons (text : jsstring) :
  exists first rest, splitLines text = first :: rest.
Proof.
  destruct text as [|c text]; simpl; [now eexists _, _ |].
  destruct (isLineTerminator c).
  - destruct text as [|d text]; [now eexists _, _ |].
    destruct ((c =? CR)%N && (d =? LF)%N); now eexists _, _.
  - destruct (splitLines text); now eexists _, _.
Qed.

(** No line of the split holds a line terminator. *)
Lemma splitLines_no_terminator (text : jsstring) :
  Forall (fun line => forallb (fun c => negb (isLineTerminator c)) line = true)
         (splitLines text).
Proof.
  assert (H : forall n text, length text <= n ->
            Forall (fun line =>
                      forallb (fun c => negb (isLineTerminator c)) line = true)
                   (splitLines text)).
  { clear text. induction n as [|n IH]; intros [|c text] Hlen; simpl in *;
      try lia; try (repeat constructor).
    destruct (isLineTerminator c) eqn:E.
    - destruct text as [|d text]; [repeat constructor |].
      destruct ((c =? CR)%N && (d =? LF)%N); constructor; try reflexivity;
        apply IH; simpl in *; lia.
    - assert (Hrest := IH text ltac:(lia)).
      destruct (splitLines text) as [|l ls]; [repeat constructor; simpl; now rewrite E |].
      inversion Hrest; subst. constructor; [simpl; now rewrite E | assumption]. }
  apply (H (length text)). lia.
Qed.

Lemma every_from_succ (i : nat) (lines : list jsstring) :
  every_from startsWithStar (S i) lines
  = forallb (fun line => startsWith (trimStart line) [STAR]) lines.
Proof.
  revert i. induction lines as [|l lines IH]; intros i; simpl; [reflexivity |].
  now rewrite IH.
Qed.

Lemma every_startsWithStar (first : jsstring) (rest : list jsstring) :
  every startsWithStar (first :: rest)
  = forallb (fun line => startsWith (trimStart line) [STAR]) rest.
Proof. unfold every. simpl. apply every_from_succ. Qed.

(** [trimStart] removes the longest prefix of inline blanks. *)
Lemma trimStart_prefix (line : jsstring) :
  exists blanks,
    line = blanks ++ trimStart line
    /\ forallb isInlineSpace blanks = true
    /\ match trimStart line with
       | c :: _ => isInlineSpace c = false
       | [] => True
       end.
Proof.
  induction line as [|c line IH]; simpl.
  - now exists [].
  - destruct (isInlineSpace c) eqn:E.
    + destruct IH as (blanks & Heq & Hall & Hhead).
      exists (c :: blanks). simpl. rewrite E, Hall, <- Heq. now repeat split.
    + exists []. now repeat split.
Qed.

(** ** Blank lines of [printLineSpace] *)

Section LineSpaceFacts.
Variable printNode : Node -> bool -> option Doc.

Let step := lineSpaceStep printNode.

(** What a newline token does: it pushes a blank under the three flags,
    and nothing otherwise. *)
Lemma newline_step (st : LineSpaceState) :
  exists st',
    step st LSNewline = Some st'
    /\ parts st'
       = parts st
         ++ blankIf (lastWasNewline st && hasAddedNonEmptyContent st
                     && negb (hasAddedEmptyLine st))
    /\ lastWasNewline st' = true.
Proof.
  destruct st as [p e c l]. unfold step. simpl.
  destruct l, c, e; simpl; eexists; repeat split; simpl;
    now rewrite ?app_nil_r.
Qed.

(** A run of gap tokens pushes at most one blank: one exactly when
    content was pushed before, no blank was pushed since, and the run
    holds two newlines, or one when the state is already at a line end. *)
Lemma gap_run (gap : list LineSpace) :
  forall st, forallb isGap gap = true ->
  let emits :=
    hasAddedNonEmptyContent st && negb (hasAddedEmptyLine st)
    && (2 <=? countNewlines gap + (if lastWasNewline st then 1 else 0)) in
  exists st',
    foldM step gap st = Some st'
    /\ parts st' = parts st ++ blankIf emits
    /\ hasAddedEmptyLine st' = hasAddedEmptyLine st || emits
    /\ hasAddedNonEmptyContent st' = hasAddedNonEmptyContent st
    /\ lastWasNewline st' = lastWasNewline st || (0 <? countNewlines gap).
Proof.
  induction gap as [|t gap IH]; intros st Hgap.
  - exists st. destruct st as [p e c l]. simpl.
    destruct l, c, e; simpl; now rewrite ?app_nil_r.
  - simpl in Hgap. apply andb_true_iff in Hgap. destruct Hgap as [Ht Hgap].
    destruct t; try discriminate; simpl foldM.
    + (* newline *)
      destruct st as [p e c l]. intros emits. subst emits.
      unfold countNewlines in *.
      destruct l, c, e; cbn;
        match goal with |- context [foldM step gap ?s] =>
          destruct (IH s Hgap) as (st' & Hrun & Hparts & He & Hc & Hl)
        end;
        exists st'; cbn in Hparts, He, Hc, Hl;
        rewrite Hrun, Hparts, He, Hc, Hl;
        destruct (length (filter isNewline gap)) as [|[|n]];
        cbn; rewrite ?app_nil_r, <- ?app_assoc;
        repeat split; reflexivity.
    + (* space *)
      destruct (IH st Hgap) as (st' & Hrun & Hrest). now exists st'.
    + (* a token no case names *)
      destruct (IH st Hgap) as (st' & Hrun & Hrest). now exists st'.
Qed.
End LineSpaceFacts.

Lemma content_step (printNode : Node -> bool -> option Doc)
    (st st1 : LineSpaceState) (c : LineSpace) :
  isGap c = false -> lineSpaceStep printNode st c = Some st1 ->
  hasAddedEmptyLine st1 = false
  /\ hasAddedNonEmptyContent st1 = true
  /\ lastWasNewline st1 = isSingleline c.
Proof.
  intros Hc Hstep. destruct c; try discriminate; simpl in Hstep.
  - injection Hstep as <-. now repeat split.
  - injection Hstep as <-. now repeat split.
  - destruct (printNode value0 false); [|discriminate].
    injection Hstep as <-. now repeat split.
Qed.

(** C3, as the printer has it: a newline token pushes a blank line exactly
    when the state is at a line end (the last token that was no space was
    a newline or a single-line comment, or there was none and the region
    was entered with [previousWasNewline]), content was pushed (or the
    region was entered with [previousWasNewline]) and no blank was pushed
    since the last content.  So the gap after a content token pushes one
    blank line when it holds two newlines, or one after a single-line
    comment, and none otherwise; and the gap that opens a region pushes
    nothing when the region was entered without [previousWasNewline], and
    one blank line from its first newline on when it was entered with
    it. *)
Theorem printLineSpace_blank_lines
    (printNode : Node -> bool -> option Doc) :
  (forall st, exists st',
      lineSpaceStep printNode st LSNewline = Some st'
      /\ parts st'
         = parts st
           ++ blankIf (lastWasNewline st && hasAddedNonEmptyContent st
                       && negb (hasAddedEmptyLine st))
      /\ lastWasNewline st' = true)
  /\ (forall st c st1 gap,
        isGap c = false -> lineSpaceStep printNode st c = Some st1 ->
        forallb isGap gap = true ->
        exists st2,
          foldM (lineSpaceStep printNode) gap st1 = Some st2
          /\ parts st2
             = parts st1
               ++ blankIf (2 <=? countNewlines gap
                                 + (if isSingleline c then 1 else 0)))
  /\ (forall gap previousWasNewline,
        forallb isGap gap = true ->
        printLineSpaceTokens printNode gap previousWasNewline
        = Some (blankIf (previousWasNewline && (1 <=? countNewlines gap)))).
Proof.
  split; [apply newline_step | split].
  - intros st c st1 gap Hc Hstep Hgap.
    destruct (content_step _ _ _ Hc Hstep) as (He & Hcont & Hl).
    destruct (gap_run printNode gap st1 Hgap) as (st2 & Hrun & Hparts & _).
    exists st2. split; [exact Hrun |].
    rewrite Hparts, He, Hcont, Hl. reflexivity.
  - intros gap pwn Hgap. unfold printLineSpaceTokens.
    destruct (gap_run printNode gap (lineSpaceInit pwn) Hgap)
      as (st2 & Hrun & Hparts & _).
    rewrite Hrun. simpl. rewrite Hparts. simpl.
    destruct pwn; simpl; [|reflexivity].
    now replace (countNewlines gap + 1) with (S (countNewlines gap)) by lia.
Qed.

(** Two comment lines with three blank lines between them keep one. *)
Example printLineSpace_collapses_blank_lines :
  printLineSpaceTokens (fun _ _ => None)
    [LSSingleline commentA; LSNewline; LSSpace; LSNewline; LSNewline;
     LSSingleline commentB] false
  = Some [DString (lit "// a"); blank; DString (lit "// b")].
Proof. reflexivity. Qed.

(** C3, against the claim as it is stated: a region entered with
    [previousWasNewline] pushes a blank line at its very start from a
    single newline token, and a single newline token after a single-line
    comment pushes a blank line that ends the region. *)
Lemma printLineSpace_blank_from_one_newline :
  printLineSpaceTokens (fun _ _ => None) [LSNewline] true = Some [blank]
  /\ countNewlines [LSNewline] = 1
  /\ printLineSpaceTokens (fun _ _ => None)
       [LSSingleline commentA; LSNewline] false
     = Some [DString (lit "// a"); blank]
  /\ countNewlines [LSSingleline commentA; LSNewline] = 1.
Proof. repeat split. Qed.

(** ** The header group in the layout *)

Lemma existsb_joinParts_line (docs : list Doc) :
  existsb hasBreakParent (builders.joinParts builders.line docs)
  = existsb hasBreakParent docs.
Proof.
  induction docs as [|d [|d' docs] IH]; try reflexivity.
  change (hasBreakParent d || (false || existsb hasBreakParent
            (builders.joinParts builders.line (d' :: docs)))
          = hasBreakParent d || existsb hasBreakParent (d' :: docs)).
  now rewrite IH.
Qed.

(** The header group is marked broken exactly when one of its items
    holds a break parent. *)
Lemma hasBreakParent_headerGroup (name : jsstring) (n : nat)
    (header : list (list Doc)) :
  hasBreakParent (headerGroup name n header)
  = existsb (existsb hasBreakParent) header.
Proof.
  unfold headerGroup. simpl.
  rewrite existsb_joinParts_line, !orb_false_r, orb_diag.
  induction header as [|item header IH]; simpl; [reflexivity |].
  now rewrite IH.
Qed.

Section LayoutFacts.
Variable getStringWidth : jsstring -> nat.
Variable printWidth : nat.
Variable tabWidth : nat.

Let fits := fits getStringWidth.
Let layout := layout getStringWidth printWidth tabWidth.
Let enterGroup := enterGroup getStringWidth printWidth.
Let emitText := emitText getStringWidth.


Lemma layout_array_cons (ind : nat) (mode : Mode) (d : Doc)
    (parts : list Doc) (rest : Z -> bool) (st : LayoutState) :
  layout ind mode (DArray (d :: parts)) rest st
  = layout ind mode (DArray parts) rest
      (layout ind mode d (fits mode (DArray parts) rest) st).
Proof. reflexivity. Qed.





End LayoutFacts.

(** ** The items of a header *)


Lemma pushAt_forcesBreak (h : list (list Doc)) (i : nat) :
  forcesBreak (pushAt i continuation h) = forcesBreak h.
Proof.
  revert i. induction h as [|x h IH]; intros [|i]; simpl; try reflexivity.
  - unfold forcesBreak. simpl. rewrite existsb_app. simpl.
    now rewrite !orb_false_r.
  - unfold forcesBreak in *. simpl. now rewrite IH.
Qed.


Lemma pushContinuation_forcesBreak (st : HeaderState) :
  forcesBreak (header (pushContinuation st)) = forcesBreak (header st).
Proof.
  unfold pushContinuation. destruct (lastHeaderItem st); simpl;
    [apply pushAt_forcesBreak | reflexivity].
Qed.



Lemma forcesBreak_app (h : list (list Doc)) (item : list Doc) :
  forcesBreak (h ++ [item]) = forcesBreak h || existsb hasBreakParent item.
Proof. unfold forcesBreak. rewrite existsb_app. simpl. now rewrite orb_false_r. Qed.

Lemma joinParts_noBreak (sep : Doc) (docs : list Doc) :
  hasBreakParent sep = false ->
  existsb hasBreakParent docs = false ->
  existsb hasBreakParent (builders.joinParts sep docs) = false.
Proof.
  intros Hsep. induction docs as [|d [|d' docs] IH]; intros H;
    try assumption.
  change (hasBreakParent d || existsb hasBreakParent (d' :: docs) = false)
    in H.
  apply orb_false_iff in H. destruct H as [Hd H].
  change (hasBreakParent d
          || (hasBreakParent sep
              || existsb hasBreakParent
                   (builders.joinParts sep (d' :: docs))) = false).
  now rewrite Hd, Hsep, IH.
Qed.

Lemma strings_noBreak (f : jsstring -> jsstring) (lines : list jsstring) :
  existsb hasBreakParent (map (fun line => DString (f line)) lines) = false.
Proof. induction lines; simpl; auto. Qed.

(** A block comment of a header holds no break parent. *)
Lemma headerComment_noBreak (text : jsstring) :
  hasBreakParent (headerComment text) = false.
Proof.
  unfold headerComment.
  destruct ((length (splitLines text) =? 1)
            || negb (every startsWithStar (splitLines text)));
    apply joinParts_noBreak; try reflexivity.
  - apply (strings_noBreak (fun line => line)).
  - simpl. apply (strings_noBreak (fun line => lit " " ++ trim line)).
Qed.


Lemma fold_left_invariant {A S} (P : S -> Prop) (step : S -> A -> S) :
  (forall st x, P st -> P (step st x)) ->
  forall l st, P st -> P (fold_left step l st).
Proof.
  intros Hstep. induction l as [|x l IH]; intros st HP; simpl; auto.
Qed.

Section HeaderFacts.
Variable shortestRoundTrip : number -> jsstring.
Variable parseLineSpace : jsstring -> list LineSpace.
Variable parseNodeSpace : jsstring -> list NodeSpace.
Variable getStringWidth : jsstring -> nat.
Variable printNode : Node -> bool -> option Doc.







End HeaderFacts.

(** ** Header trivia and forced breaks *)

Lemma lineEscapeStep_keeps_break (text : jsstring) (st : HeaderState)
    (nested : LineSpace) :
  forcesBreak (header st) = true ->
  forcesBreak (header (lineEscapeStep text st nested)) = true.
Proof.
  intros H. destruct nested; simpl; try assumption;
    rewrite !forcesBreak_app; simpl; now rewrite ?orb_true_r.
Qed.

Lemma lineEscapeStep_comment_breaks (text : jsstring) (st : HeaderState)
    (nested : LineSpace) :
  isComment nested = true ->
  forcesBreak (header (lineEscapeStep text st nested)) = true.
Proof.
  intros H. destruct nested; try discriminate; simpl;
    rewrite !forcesBreak_app; simpl; now rewrite ?orb_true_r.
Qed.

Lemma lineEscape_breaks (text : jsstring) (tokens : list LineSpace) :
  existsb isComment tokens = true ->
  forall st,
    forcesBreak (header (fold_left (lineEscapeStep text) tokens st)) = true.
Proof.
  induction tokens as [|t tokens IH]; intros H st; simpl in *;
    [discriminate |].
  apply orb_true_iff in H. destruct H as [H | H]; [|now apply IH].
  apply fold_left_invariant;
    [intros s x; apply lineEscapeStep_keeps_break |].
  now apply lineEscapeStep_comment_breaks.
Qed.

(** ** The broken header *)





(** A node behind the slashdash marker starts two columns in, and its
    items start at the indentation and [nameAlign] all the same: the
    items of [n] start in the column of the name, two columns short of
    the column one past its end. *)
Example slashdashed_node_items_column :
  Samples.format Samples.markerTokens Samples.commentInNode 80
    Samples.behindMarker
  = Some (lit "/-n " ++ [BACKSLASH; LF]
          ++ lit "  a=#true " ++ [BACKSLASH; LF]
          ++ lit "  " ++ [BACKSLASH] ++ lit " // c" ++ [LF]
          ++ lit "  b=#false" ++ [LF]
          ++ lit "m" ++ [LF]).
Proof. reflexivity. Qed.

(** ** The sole first argument *)

Lemma filter_no_argument (rest : list Entry) :
  forallb (fun e => negb (isArgument e)) rest = true ->
  filter isArgument rest = [].
Proof.
  induction rest as [|e rest IH]; simpl; [reflexivity |].
  intros H. apply andb_true_iff in H. destruct H as [He H].
  apply negb_true_iff in He. rewrite He. now apply IH.
Qed.

(** A header group without items fits when its name, the empty flat
    continuation and the space of its [line] fit, and what follows it on
    the line fits. *)
Lemma fits_empty_header (getStringWidth : jsstring -> nat)
    (name : jsstring) (n : nat) (contents : Doc) (rest : Z -> bool)
    (width : Z) :
  headerGroup name n [] = DGroup contents ->
  (Z.of_nat (getStringWidth name + getStringWidth [] + 1) <= width)%Z ->
  rest (width - Z.of_nat (getStringWidth name)
        - Z.of_nat (getStringWidth []) - 1)%Z = true ->
  fitsFrom getStringWidth MODE_FLAT contents rest width = true.
Proof.
  intros Hc Hwidth Hrest. injection Hc as <-.
  unfold fitsFrom. simpl.
  repeat match goal with
         | |- context [(?x <? 0)%Z] =>
             destruct (Z.ltb_spec x 0); [lia |]
         end.
  exact Hrest.
Qed.

(** C4: when the entries of a node start with an argument, no other entry
    is an argument, and the argument has no leading trivia or only inline
    blanks in front, the argument is written behind the name in the
    string the header group starts with, and the header items are those
    of the other entries.  When there is nothing else in the header, the
    group has no item and no forced break, is printed flat whenever it
    fits, which it does when the name, the value and two spaces fit the
    rest of the line, and a flat print is the name, a space and the value
    on one line (and the space of the [line], which the next line end
    drops). *)
Theorem sole_first_argument_fused
    (shortestRoundTrip : number -> jsstring)
    (parseLineSpace : jsstring -> list LineSpace)
    (parseNodeSpace : jsstring -> list NodeSpace)
    (getStringWidth : jsstring -> nat)
    (printNode : Node -> bool -> option Doc)
    (node : Node) (arg : Entry) (others : list Entry) :
  let fused := printName node ++ lit " " ++ printEntry shortestRoundTrip arg in
  let n := nameAlign getStringWidth node in
  entries node = arg :: others ->
  isArgument arg = true ->
  forallb (fun e => negb (isArgument e)) others = true ->
  truthy (entry_leading arg) = false
  \/ trim (orEmpty (entry_leading arg)) = [] ->
  fusedArgument node = Some arg
  /\ headerName shortestRoundTrip node = fused
  /\ headerEntries node = others
  /\ (forall st,
        headerOfNode shortestRoundTrip parseLineSpace parseNodeSpace
          printNode node = Some st ->
        nodeGroup shortestRoundTrip parseLineSpace parseNodeSpace
          getStringWidth printNode node
        = Some (headerGroup fused n (header (closeHeader node st))))
  /\ (others = [] -> truthy (beforeChildren node) = false ->
      children node = None ->
      nodeGroup shortestRoundTrip parseLineSpace parseNodeSpace
        getStringWidth printNode node
      = Some (headerGroup fused n [])
      /\ hasBreakParent (headerGroup fused n []) = false
      /\ forall contents printWidth tabWidth ind rest lst,
           headerGroup fused n [] = DGroup contents ->
           (fitsFrom getStringWidth MODE_FLAT contents rest
              (Z.of_nat printWidth - Z.of_nat (pos lst)) = true ->
            layout getStringWidth printWidth tabWidth ind MODE_BREAK
              (headerGroup fused n []) rest lst
            = emitSpace
               (emitText getStringWidth []
                  (emitText getStringWidth fused (setRemeasure false lst))))
           /\ ((Z.of_nat (getStringWidth fused + getStringWidth [] + 1)
                <= Z.of_nat printWidth - Z.of_nat (pos lst))%Z ->
               rest (Z.of_nat printWidth - Z.of_nat (pos lst)
                     - Z.of_nat (getStringWidth fused)
                     - Z.of_nat (getStringWidth []) - 1)%Z = true ->
               fitsFrom getStringWidth MODE_FLAT contents rest
                 (Z.of_nat printWidth - Z.of_nat (pos lst)) = true)).
Proof.
  intros fused n Hentries Harg Hothers Hleading.
  assert (Hfused : fusedArgument node = Some arg).
  { unfold fusedArgument, getArgumentEntries. rewrite Hentries. simpl.
    rewrite Harg, (filter_no_argument _ Hothers). simpl.
    destruct Hleading as [H | H]; rewrite H; [reflexivity |].
    simpl. now rewrite orb_true_r. }
  assert (Hname : headerName shortestRoundTrip node = fused)
    by (unfold headerName; now rewrite Hfused).
  assert (Hrest : headerEntries node = others)
    by (unfold headerEntries; now rewrite Hfused, Hentries).
  split; [exact Hfused | split; [exact Hname | split; [exact Hrest |]]].
  split.
  - intros st Hst. unfold nodeGroup. now rewrite Hst, Hname.
  - intros -> Hbefore Hchildren.
    assert (Hgroup : nodeGroup shortestRoundTrip parseLineSpace
                       parseNodeSpace getStringWidth printNode node
                     = Some (headerGroup fused n [])).
    { unfold nodeGroup, headerOfNode. rewrite Hrest, Hbefore, Hname. simpl.
      unfold closeHeader, withoutBlock, hasChildren.
      now rewrite Hchildren. }
    split; [exact Hgroup | split; [reflexivity |]].
    intros contents printWidth tabWidth ind rest lst Hc.
    split; [|now apply fits_empty_header with (name := fused) (n := n)].
    intros Hfits.
    injection Hc as <-. unfold headerGroup, builders.group.
    change (layout getStringWidth printWidth tabWidth ind MODE_BREAK
              (DGroup ?c) rest lst)
      with (layout getStringWidth printWidth tabWidth ind
              (fst (enterGroup getStringWidth printWidth MODE_BREAK c rest lst))
              c rest
              (snd (enterGroup getStringWidth printWidth MODE_BREAK c rest
                      lst))).
    unfold enterGroup. simpl hasBreakParent. simpl negb.
    change (pos (setRemeasure false lst)) with (pos lst).
    unfold headerGroup, builders.group in Hfits. simpl andb.
    rewrite Hfits. reflexivity.
Qed.

(** [Samples.oneArgument]: the argument is written behind the name, and
    the node is printed on one line. *)
Lemma sole_first_argument_fused_witness :
  headerName Samples.noRoundTrip Samples.oneArgument
  = lit "node " ++ [DQUOTE] ++ lit "value" ++ [DQUOTE]
  /\ Samples.format Samples.spaceTokens Samples.spaceInNode 80
       (mkDocument [Samples.oneArgument] None)
     = Some (lit "node " ++ [DQUOTE] ++ lit "value" ++ [DQUOTE; LF]).
Proof.
  split; [|reflexivity].
  exact (proj1 (proj2
           (@sole_first_argument_fused Samples.noRoundTrip
              Samples.spaceTokens Samples.spaceInNode Samples.width
              (fun _ _ => None) Samples.oneArgument
              (Samples.argument (VString (lit "value")) (Some (lit " "))) []
              eq_refl eq_refl eq_refl (or_intror eq_refl)))).
Defined.

(** ** The end of a node *)

Lemma endsWith_last (s : jsstring) (c : N) :
  endsWith s [c] = true <-> exists t, s = t ++ [c].
Proof.
  unfold endsWith. simpl rev. rewrite startsWith_iff. split.
  - intros [post H]. exists (rev post).
    rewrite <- (rev_involutive s), H. reflexivity.
  - intros [t ->]. exists (rev t). now rewrite rev_app_distr.
Qed.

Lemma hardline_layout (getStringWidth : jsstring -> nat)
    (printWidth tabWidth ind : nat) (mode : Mode) (rest : Z -> bool)
    (st : LayoutState) :
  out (layout getStringWidth printWidth tabWidth ind mode builders.hardline
         rest st)
  = trimOutput (out st) ++ [LF] ++ repeat1 SPACE ind.
Proof. destruct mode; reflexivity. Qed.

(** C10: when the trivia after a node ends with a semicolon, the text
    handed to [printLineSpace] is that trivia without its last unit, so the
    semicolon that ends the node reaches neither the tokenizer nor the
    output; when what is left holds no comment and no slashdash, the
    trivia prints nothing at all; the parts of the node are joined by hard
    lines, each of which is printed as a line end. *)
Theorem trailing_semicolon_removed
    (shortestRoundTrip : number -> jsstring)
    (parseLineSpace : jsstring -> list LineSpace)
    (parseNodeSpace : jsstring -> list NodeSpace)
    (getStringWidth : jsstring -> nat)
    (printNode : Node -> bool -> option Doc)
    (node : Node) (isFirstNode : bool) (text : jsstring) :
  trailing node = Some text ->
  endsWith text [SEMICOLON] = true ->
  text = trailingText node ++ [SEMICOLON]
  /\ (forall printed,
        printNodeBody shortestRoundTrip parseLineSpace parseNodeSpace
          getStringWidth printNode node isFirstNode = Some printed ->
        exists partsLeading main partsTrailing,
          printed
          = builders.join builders.hardline
              (partsLeading ++ [main] ++ partsTrailing)
          /\ printLineSpaceTokens printNode
               (parseLineSpace (trailingText node)) false
             = Some partsTrailing)
  /\ (forallb isGap (parseLineSpace (trailingText node)) = true ->
      printLineSpaceTokens printNode
        (parseLineSpace (trailingText node)) false = Some [])
  /\ (forall printWidth tabWidth ind mode rest st,
        out (layout getStringWidth printWidth tabWidth ind mode
               builders.hardline rest st)
        = trimOutput (out st) ++ [LF] ++ repeat1 SPACE ind).
Proof.
  intros Htrailing Hends.
  assert (Htext : text = trailingText node ++ [SEMICOLON]).
  { unfold trailingText. rewrite Htrailing. simpl orEmpty. rewrite Hends.
    apply endsWith_last in Hends. destruct Hends as [t ->].
    unfold slice_0_m1. now rewrite removelast_last. }
  split; [exact Htext | split; [|split; [|intros; apply hardline_layout]]].
  2: { intros Hgap. unfold printLineSpaceTokens.
       destruct (gap_run printNode _ (lineSpaceInit false) Hgap)
         as (st2 & Hrun & Hparts & _).
       rewrite Hrun. simpl. now rewrite Hparts. }
  intros printed Hprint. unfold printNodeBody in Hprint.
  assert (Htruthy : truthy (trailing node) = true).
  { rewrite Htrailing, Htext. now destruct (trailingText node). }
  rewrite Htruthy in Hprint.
  destruct (nodeGroup _ _ _ _ _ node) as [group|]; [|discriminate].
  simpl in Hprint.
  destruct (if truthy (leading node) then _ else _) as [pl|];
    [|discriminate].
  simpl in Hprint.
  destruct (if withoutBlock node then _ else _) as [main|]; [|discriminate].
  simpl in Hprint. unfold printLineSpace in Hprint.
  destruct (printLineSpaceTokens _ _ false) as [pt|] eqn:E; [|discriminate].
  injection Hprint as <-. now exists pl, main, pt.
Qed.

(** [Samples.child]: its trailing trivia is the semicolon alone, the text
    given to [printLineSpace] is empty, and the two nodes are printed on a
    line each. *)
Lemma trailing_semicolon_removed_witness :
  [SEMICOLON] = trailingText Samples.child ++ [SEMICOLON]
  /\ Samples.format Samples.spaceTokens Samples.spaceInNode 80
       (mkDocument [Samples.child; Samples.other] None)
     = Some (lit "child" ++ [LF] ++ lit "other" ++ [LF]).
Proof.
  split; [|reflexivity].
  exact (proj1
           (@trailing_semicolon_removed Samples.noRoundTrip
              Samples.spaceTokens Samples.spaceInNode Samples.width
              (fun _ _ => None) Samples.child true [SEMICOLON]
              eq_refl eq_refl)).
Defined.

(** ** The tests of the repository *)

(** The block comment of the test [comments]: the star of every
    continuation line comes one column in. *)
Example test_block_comment :
  lineSpaceComment moarComments
  = builders.join builders.hardline
      [DString (lit "/*"); DString (lit " * moar comments");
       DString (lit " */")].
Proof. reflexivity. Qed.

(** The test [comments]: the comments and the slashdashed node in front
    of the node, a blank line, the header with its slashdashed argument
    on one line, and the children with their comments and blank lines. *)
Example test_comments :
  Samples.format Samples.commentsTokens Samples.commentsInNode 80
    Samples.commentsTest
  = Some (lit "// lookie here, a comment" ++ [LF]
          ++ lit "/*" ++ [LF]
          ++ lit " * moar comments" ++ [LF]
          ++ lit " */" ++ [LF]
          ++ lit "/-commented " ++ quoted (lit "node") ++ [LF]
          ++ [LF]
          ++ quoted (lit "not commented node") ++ lit " /-"
          ++ quoted (lit "commented arg") ++ lit " {" ++ [LF]
          ++ lit "  // comment inside" ++ [LF]
          ++ lit "  child" ++ [LF]
          ++ [LF]
          ++ lit "  // other comment inside" ++ [LF]
          ++ lit "  other_child" ++ [LF]
          ++ [LF]
          ++ lit "  third_child" ++ [LF]
          ++ lit "}" ++ [LF]).
Proof. reflexivity. Qed.

(** Names: a plain one, a reserved one, one that starts like a number and
    one that holds a double quote followed by a hash. *)
Example printIdentifier_samples :
  printIdentifier {| name := lit "node" |} = lit "node"
  /\ printIdentifier {| name := lit "true" |} = quoted (lit "true")
  /\ printIdentifier {| name := lit "-1a" |} = quoted (lit "-1a")
  /\ printIdentifier {| name := lit "not commented node" |}
     = quoted (lit "not commented node")
  /\ printIdentifier {| name := quoteHashExample |}
     = lit "##" ++ quoted quoteHashExample ++ lit "##".
Proof. repeat split. Qed.

(** The test [collapse lines]: the header on one line, the blank lines in
    front of the child dropped. *)
Example test_collapse_lines :
  Samples.format Samples.testTokens Samples.testInNode 80
    (mkDocument [Samples.collapseLines] None)
  = Some (lit "node prop=#true " ++ quoted (lit "arg")
          ++ lit " #false 2000 {" ++ [LF]
          ++ lit "  child" ++ [LF] ++ lit "}" ++ [LF]).
Proof. reflexivity. Qed.

(** The test [long line]: the argument stays behind the name, and every
    property is on a line of its own, five columns in. *)
Example test_long_line :
  Samples.format Samples.spaceTokens Samples.spaceInNode 80
    (mkDocument [Samples.longLine] None)
  = Some (lit "node " ++ quoted (lit "single argument")
          ++ [SPACE; BACKSLASH; LF]
          ++ lit "     prop1=#false" ++ [SPACE; BACKSLASH; LF]
          ++ lit "     prop2=2000" ++ [SPACE; BACKSLASH; LF]
          ++ lit "     prop3=" ++ quoted (lit "arg") ++ [SPACE; BACKSLASH; LF]
          ++ lit "     prop4=" ++ quoted (lit "arg") ++ [SPACE; BACKSLASH; LF]
          ++ lit "     prop5=" ++ quoted (lit "arg") ++ [SPACE; BACKSLASH; LF]
          ++ lit "     prop6=" ++ quoted (lit "arg") ++ [LF]).
Proof. reflexivity. Qed.

(** ** Formatting twice *)

(** C1: a name that is one backslash is written between double quotes as
    it is, where [printValue] writes the same text with the backslash
    escaped; the printed document is a double quote, a backslash, a double
    quote and a line end, in which the backslash escapes the second double
    quote and the string does not end. *)
Theorem printIdentifier_backslash_not_escaped :
  printIdentifier {| name := [BACKSLASH] |} = [DQUOTE; BACKSLASH; DQUOTE]
  /\ printValue Samples.noRoundTrip (VString [BACKSLASH])
     = [DQUOTE; BACKSLASH; BACKSLASH; DQUOTE]
  /\ Samples.format Samples.spaceTokens Samples.spaceInNode 80
       (mkDocument [Samples.backslashNode] None)
     = Some [DQUOTE; BACKSLASH; DQUOTE; LF].
Proof. repeat split. Qed.

(** ** The printer returns *)

Unset Implicit Arguments.

Section Totality.
Variable shortestRoundTrip : number -> jsstring.
Variable parseLineSpace : jsstring -> list LineSpace.
Variable parseNodeSpace : jsstring -> list NodeSpace.
Variable getStringWidth : jsstring -> nat.
Variable rec : Node -> bool -> option Doc.

Lemma returnsOn_app (a b : list Node) :
  returnsOn rec (a ++ b) <-> returnsOn rec a /\ returnsOn rec b.
Proof.
  unfold returnsOn. split.
  - intros H. split; intros v f Hin; apply H, in_or_app; auto.
  - intros [Ha Hb] v f Hin. apply in_app_or in Hin. destruct Hin; auto.
Qed.

Lemma lineSpace_returns (tokens : list LineSpace) :
  returnsOn rec (slashdashNodes tokens) ->
  forall st, exists st', foldM (lineSpaceStep rec) tokens st = Some st'.
Proof.
  induction tokens as [|t tokens IH]; intros Hrec st; simpl;
    [now exists st |].
  assert (Htail : returnsOn rec (slashdashNodes tokens)).
  { destruct t; simpl in Hrec; try exact Hrec.
    intros v b Hin. apply (Hrec v b). now right. }
  destruct t; simpl; try apply (IH Htail).
  destruct (Hrec value0 false) as [d Hd]; [now left |].
  rewrite Hd. simpl. apply (IH Htail).
Qed.

Lemma printLineSpaceTokens_returns (tokens : list LineSpace) (b : bool) :
  returnsOn rec (slashdashNodes tokens) ->
  exists docs, printLineSpaceTokens rec tokens b = Some docs.
Proof.
  intros H. unfold printLineSpaceTokens.
  destruct (lineSpace_returns tokens H (lineSpaceInit b)) as [st' ->].
  simpl. now eexists.
Qed.

Lemma optionalLineSpace_returns (text : option jsstring) (b : bool) :
  returnsOn rec (lineSpaceCallees parseLineSpace text) ->
  exists docs,
    (if truthy text
     then printLineSpace parseLineSpace rec (orEmpty text) b
     else Some []) = Some docs.
Proof.
  unfold lineSpaceCallees. destruct (truthy text); intros H;
    [now apply printLineSpaceTokens_returns | now eexists].
Qed.

Lemma mapM_returns (l : list Node) (i : nat) :
  returnsOn rec l ->
  exists docs, mapM_from (fun node i => rec node (i =? 0)) i l = Some docs.
Proof.
  revert i. induction l as [|x l IH]; intros i H; simpl; [now eexists |].
  destruct (H x (i =? 0)) as [d ->]; [now left |]. simpl.
  destruct (IH (S i)) as [docs ->]; [|simpl; now eexists].
  intros v b Hin. apply H. now right.
Qed.

Lemma printDocument_returns (d : Document) :
  returnsOn rec (documentCallees parseLineSpace d) ->
  exists doc, printDocument parseLineSpace rec d = Some doc.
Proof.
  unfold documentCallees. rewrite returnsOn_app. intros [Hnodes Htrail].
  unfold printDocument.
  destruct (mapM_returns (nodes d) 0 Hnodes) as [docs ->]. simpl.
  destruct (optionalLineSpace_returns _ false Htrail) as [parts ->].
  simpl. now eexists.
Qed.

Lemma header_returns (tokens : list NodeSpace) :
  returnsOn rec (flat_map (documentCallees parseLineSpace)
               (slashdashDocuments tokens)) ->
  forall st,
  exists st',
    foldM (headerStep shortestRoundTrip parseLineSpace rec) tokens st
    = Some st'.
Proof.
  induction tokens as [|t tokens IH]; intros Hrec st; simpl;
    [now exists st |].
  destruct t; simpl in *; try apply (IH Hrec).
  apply returnsOn_app in Hrec. destruct Hrec as [Hdoc Hrec].
  destruct (printDocument_returns value0 Hdoc) as [doc ->]. simpl.
  apply (IH Hrec).
Qed.

Lemma optionalHeader_returns (text : option jsstring) (st : HeaderState) :
  returnsOn rec (headerCallees parseLineSpace parseNodeSpace text) ->
  exists st',
    (if truthy text
     then addCommentToHeader shortestRoundTrip parseLineSpace
            parseNodeSpace rec (orEmpty text) st
     else Some st) = Some st'.
Proof.
  unfold headerCallees. destruct (truthy text); intros H;
    [now apply header_returns | now eexists].
Qed.

Lemma entries_return (l : list Entry) :
  returnsOn rec (flat_map (fun e => headerCallees parseLineSpace parseNodeSpace
                                  (entry_leading e)) l) ->
  forall st,
  exists st',
    foldM (entryStep shortestRoundTrip parseLineSpace parseNodeSpace rec)
      l st = Some st'.
Proof.
  induction l as [|e l IH]; intros Hrec st; simpl; [now exists st |].
  simpl in Hrec. apply returnsOn_app in Hrec. destruct Hrec as [He Hrec].
  unfold entryStep at 1.
  destruct (optionalHeader_returns _ st He) as [st1 ->]. simpl.
  apply (IH Hrec).
Qed.

Lemma withoutBlock_children (node : Node) :
  withoutBlock node = false -> exists d, children node = Some d.
Proof.
  unfold withoutBlock, hasChildren.
  destruct (children node) as [d|]; [now exists d | discriminate].
Qed.

Lemma printNodeBody_returns (node : Node) (isFirstNode : bool) :
  returnsOn rec (callees parseLineSpace parseNodeSpace node) ->
  exists doc,
    printNodeBody shortestRoundTrip parseLineSpace parseNodeSpace
      getStringWidth rec node isFirstNode = Some doc.
Proof.
  unfold callees. rewrite !returnsOn_app.
  intros (Hentries & Hbefore & Hleading & Hchildren & Htrailing).
  unfold printNodeBody, nodeGroup, headerOfNode.
  destruct (entries_return _ Hentries
              {| header := []; lastHeaderItem := Detached [] |})
    as [st1 ->]. simpl.
  destruct (optionalHeader_returns _ st1 Hbefore) as [st2 ->]. simpl.
  destruct (optionalLineSpace_returns _ (negb isFirstNode) Hleading)
    as [pl ->]. simpl.
  assert (Hmain : exists main,
            (if withoutBlock node
             then Some (headerGroup (headerName shortestRoundTrip node)
                          (nameAlign getStringWidth node)
                          (header (closeHeader node st2)))
             else
               match children node with
               | Some d =>
                   bind (printDocument parseLineSpace rec d)
                     (fun printed =>
                        Some (DArray
                                [headerGroup
                                   (headerName shortestRoundTrip node)
                                   (nameAlign getStringWidth node)
                                   (header (closeHeader node st2));
                                 builders.indent
                                   (DArray [builders.hardline; printed]);
                                 builders.hardline;
                                 DString (lit "}")]))
               | None => None
               end) = Some main).
  { destruct (withoutBlock node) eqn:E; [now eexists |].
    destruct (withoutBlock_children node E) as [d Hd].
    rewrite Hd in *.
    destruct (printDocument_returns d Hchildren) as [doc ->].
    simpl. now eexists. }
  destruct Hmain as [main ->]. simpl.
  destruct (truthy (trailing node)); [|now eexists].
  destruct (printLineSpaceTokens_returns _ false Htrailing) as [pt Hpt].
  unfold printLineSpace. rewrite Hpt. simpl. now eexists.
Qed.
End Totality.

(** [printNode] returns a document on every node whose calls nest less
    than [depth] deep. *)
Theorem printNode_returns
    (shortestRoundTrip : number -> jsstring)
    (parseLineSpace : jsstring -> list LineSpace)
    (parseNodeSpace : jsstring -> list NodeSpace)
    (getStringWidth : jsstring -> nat) (depth : nat) :
  forall node isFirstNode,
    printable parseLineSpace parseNodeSpace depth node = true ->
    exists doc,
      printNode shortestRoundTrip parseLineSpace parseNodeSpace
        getStringWidth depth node isFirstNode = Some doc.
Proof.
  induction depth as [|depth IH]; intros node isFirstNode H;
    [discriminate |].
  simpl in H. rewrite forallb_forall in H.
  apply printNodeBody_returns. intros v b Hin. apply IH. now apply H.
Qed.

(** The tree of the test [collapse lines] is printable at depth two: the
    node and, below it, its child. *)
Lemma printNode_returns_witness :
  exists doc,
    printNode Samples.noRoundTrip Samples.testTokens Samples.testInNode
      Samples.width 2 Samples.collapseLines true = Some doc.
Proof.
  exact (printNode_returns Samples.noRoundTrip Samples.testTokens
           Samples.testInNode Samples.width 2 Samples.collapseLines true
           eq_refl).
Defined.


(** * More properties of the printer *)

(** ** The hash count *)

Lemma occursIn_quote (v : jsstring) : occursIn (needle 0) v <-> In DQUOTE v.
Proof.
  change (needle 0) with [DQUOTE]. split.
  - intros (pre & post & ->). apply in_elt.
  - intros H. apply in_split in H. destruct H as (pre & post & ->).
    now exists pre, post.
Qed.

Lemma occursIn_length (pat s : jsstring) :
  occursIn pat s -> length pat <= length s.
Proof. intros (pre & post & ->). rewrite !length_app. lia. Qed.

Lemma needle_length (k : nat) : length (needle k) = S k.
Proof. unfold needle, repeat1. simpl. now rewrite repeat_length. Qed.

(** X2: the hash count is zero exactly when the text holds no double
    quote, and it never exceeds the length of the text; so [printValue]
    writes a string raw exactly when it holds a double quote, and escapes
    no double quote. *)
Theorem numberOfHashes_zero_iff_no_quote
    (shortestRoundTrip : number -> jsstring) (v : jsstring) :
  (numberOfHashes v = 0 <-> ~ In DQUOTE v)
  /\ numberOfHashes v <= length v
  /\ (In DQUOTE v ->
      0 < numberOfHashes v
      /\ printValue shortestRoundTrip (VString v)
         = rawString (numberOfHashes v) v)
  /\ (~ In DQUOTE v ->
      printValue shortestRoundTrip (VString v) = JSON_stringify v).
Proof.
  destruct (numberOfHashes_minimal v) as [Hstop Hbelow].
  assert (Hzero : numberOfHashes v = 0 <-> ~ In DQUOTE v).
  { rewrite <- occursIn_quote. split.
    - intros H. now rewrite H in Hstop.
    - intros H. destruct (numberOfHashes v) as [|k] eqn:E; [reflexivity |].
      exfalso. apply H, Hbelow. lia. }
  split; [exact Hzero |]. split; [|split].
  - destruct (numberOfHashes v) as [|k] eqn:E; [lia |].
    assert (H : occursIn (needle k) v) by (apply Hbelow; lia).
    apply occursIn_length in H. rewrite needle_length in H. exact H.
  - intros Hin.
    assert (Hpos : 0 < numberOfHashes v).
    { destruct (numberOfHashes v) eqn:E; [|lia].
      exfalso. now apply (proj1 Hzero). }
    split; [exact Hpos |]. simpl.
    destruct (numberOfHashes v =? 0) eqn:E; [|reflexivity].
    apply Nat.eqb_eq in E. lia.
  - intros Hnot. apply Hzero in Hnot. simpl. now rewrite Hnot.
Qed.

(** ** The end of a raw string *)

Lemma needle_end_unique (k : nat) (v pre post : jsstring) :
  ~ occursIn (needle k) v ->
  v ++ needle k = pre ++ needle k ++ post ->
  pre = v /\ post = [].
Proof.
  intros Hnot Heq. apply app_eq_app in Heq.
  destruct Heq as [l [[Hv Hl] | [Hpre Hl]]].
  - destruct l as [|c l].
    + rewrite app_nil_r in Hv.
      split; [now subst |].
      apply (f_equal (@length N)) in Hl. rewrite !length_app in Hl.
      destruct post; [reflexivity | simpl in Hl; lia].
    + exfalso. unfold needle in Hl. simpl in Hl. injection Hl as Hc Hl.
      subst c. symmetry in Hl. apply app_eq_app in Hl.
      destruct Hl as [m [[Hl' Hm] | [Hr Hm]]].
      * apply Hnot. exists pre, m. rewrite Hv, Hl'. reflexivity.
      * destruct m as [|x m].
        -- apply Hnot. exists pre, []. rewrite Hv.
           rewrite app_nil_r in Hr. unfold needle.
           now rewrite Hr, app_nil_r.
        -- simpl in Hm. injection Hm as Hx _. subst x.
           assert (Hin : In DQUOTE (repeat1 HASH k))
             by (rewrite Hr; apply in_elt).
           apply repeat_spec in Hin. discriminate.
  - apply (f_equal (@length N)) in Hl. rewrite !length_app in Hl.
    destruct l; [|simpl in Hl; lia]. destruct post; [|simpl in Hl; lia].
    rewrite app_nil_r in Hpre. now split.
Qed.

(** X3: in the raw form of a text, the content is followed by a double
    quote and the hashes, and this closing delimiter occurs nowhere
    earlier in what follows the opening quote: a reader that stops at the
    first double quote followed by that many hashes reads the content
    back, whole. *)
Theorem raw_string_ends_once (v pre post : jsstring) :
  v ++ needle (numberOfHashes v) = pre ++ needle (numberOfHashes v) ++ post ->
  rawString (numberOfHashes v) v
  = repeat1 HASH (numberOfHashes v) ++ [DQUOTE]
    ++ v ++ needle (numberOfHashes v)
  /\ pre = v /\ post = [].
Proof.
  intros Heq. split; [reflexivity |].
  apply (needle_end_unique (numberOfHashes v)); [|exact Heq].
  apply numberOfHashes_minimal.
Qed.

(** The text of the example ends its raw form once. *)
Lemma raw_string_ends_once_witness :
  rawString 2 quoteHashExample
  = lit "##" ++ [DQUOTE] ++ quoteHashExample ++ needle 2
  /\ quoteHashExample = quoteHashExample /\ @nil N = [].
Proof.
  exact (raw_string_ends_once quoteHashExample quoteHashExample [] eq_refl).
Defined.

(** ** The quoted form *)

Lemma hexDigit_quotable (d : N) : quotable (hexDigit d).
Proof.
  unfold hexDigit, quotable, DQUOTE.
  destruct (d <? 10)%N eqn:E; [apply N.ltb_lt in E | apply N.ltb_ge in E];
    split; lia.
Qed.

Lemma unicodeEscape_quotable (c : N) : Forall quotable (unicodeEscape c).
Proof.
  unfold unicodeEscape.
  repeat constructor; try apply hexDigit_quotable;
    unfold quotable, BACKSLASH, DQUOTE; try lia; discriminate.
Qed.

Lemma quoteJSONBody_cons (c : N) (rest : jsstring) :
  quoteJSONBody (c :: rest)
  = if (c =? 0x08)%N then BACKSLASH :: 0x62%N :: quoteJSONBody rest
    else if (c =? 0x09)%N then BACKSLASH :: 0x74%N :: quoteJSONBody rest
    else if (c =? 0x0A)%N then BACKSLASH :: 0x6E%N :: quoteJSONBody rest
    else if (c =? 0x0C)%N then BACKSLASH :: 0x66%N :: quoteJSONBody rest
    else if (c =? 0x0D)%N then BACKSLASH :: 0x72%N :: quoteJSONBody rest
    else if (c =? DQUOTE)%N then BACKSLASH :: DQUOTE :: quoteJSONBody rest
    else if (c =? BACKSLASH)%N
      then BACKSLASH :: BACKSLASH :: quoteJSONBody rest
    else if (c <? 0x20)%N then unicodeEscape c ++ quoteJSONBody rest
    else if isLeadingSurrogate c then
      match rest with
      | d :: rest' =>
          if isTrailingSurrogate d then c :: d :: quoteJSONBody rest'
          else unicodeEscape c ++ quoteJSONBody rest
      | [] => unicodeEscape c
      end
    else if isTrailingSurrogate c
      then unicodeEscape c ++ quoteJSONBody rest
    else c :: quoteJSONBody rest.
Proof. destruct rest; reflexivity. Qed.

Lemma quoteJSONBody_quotable (v : jsstring) :
  ~ In DQUOTE v -> Forall quotable (quoteJSONBody v).
Proof.
  assert (H : forall n v, length v <= n -> ~ In DQUOTE v ->
                          Forall quotable (quoteJSONBody v)).
  { clear v. induction n as [|n IH]; intros [|c rest] Hlen Hnot;
      simpl in Hlen; try lia; try constructor.
    assert (Hrest : Forall quotable (quoteJSONBody rest)).
    { apply IH; [lia | intros Hin; apply Hnot; now right]. }
    assert (Hc : c <> DQUOTE) by (intros ->; apply Hnot; now left).
    assert (Hesc : forall x, (0x20 <= x)%N -> x <> DQUOTE ->
              Forall quotable (BACKSLASH :: x :: quoteJSONBody rest)).
    { intros x Hx Hq.
      constructor; [split; [discriminate | unfold BACKSLASH; lia] |].
      constructor; [now split | exact Hrest]. }
    assert (Huni : Forall quotable (unicodeEscape c ++ quoteJSONBody rest))
      by (apply Forall_app; split;
          [apply unicodeEscape_quotable | exact Hrest]).
    rewrite quoteJSONBody_cons.
    repeat match goal with
           | |- context [if (c =? ?k)%N then _ else _] =>
               destruct (N.eqb_spec c k);
               [first [apply Hesc; [unfold DQUOTE, BACKSLASH; lia
                                   | discriminate]
                      | congruence] |]
           end.
    destruct (N.ltb_spec c 0x20); [exact Huni |].
    destruct (isLeadingSurrogate c).
    - destruct rest as [|d rest']; [apply unicodeEscape_quotable |].
      destruct (isTrailingSurrogate d) eqn:Ed; [|exact Huni].
      unfold isTrailingSurrogate in Ed. apply andb_true_iff in Ed.
      destruct Ed as [Ed _]. apply N.leb_le in Ed.
      constructor; [now split |].
      constructor; [split; [unfold DQUOTE; lia | lia] |].
      apply IH; [simpl in Hlen; lia |].
      intros Hin. apply Hnot. right. now right.
    - destruct (isTrailingSurrogate c); [exact Huni |].
      constructor; [now split | exact Hrest]. }
  apply (H (length v)). lia.
Qed.

(** X4: a string that [printValue] writes quoted holds, between its two
    double quotes, no double quote and no control unit (no raw line feed,
    carriage return or tab): the quoted form is one token on one line as
    far as these units go. *)
Theorem quoted_string_body
    (shortestRoundTrip : number -> jsstring) (v : jsstring) :
  numberOfHashes v = 0 ->
  exists body,
    printValue shortestRoundTrip (VString v) = [DQUOTE] ++ body ++ [DQUOTE]
    /\ Forall quotable body.
Proof.
  intros Hk. exists (quoteJSONBody v). split.
  - simpl. now rewrite Hk.
  - apply quoteJSONBody_quotable.
    destruct (numberOfHashes_minimal v) as [Hstop _].
    rewrite Hk in Hstop. now rewrite <- occursIn_quote.
Qed.

(** A text with a line feed, a tab and a backslash is written quoted. *)
Lemma quoted_string_body_witness :
  exists body,
    printValue Samples.noRoundTrip (VString [LF; 0x09%N; BACKSLASH])
    = [DQUOTE] ++ body ++ [DQUOTE]
    /\ Forall quotable body.
Proof.
  exact (quoted_string_body Samples.noRoundTrip [LF; 0x09%N; BACKSLASH] eq_refl).
Defined.

(** ** Trimming *)

Lemma trimStart_fixed (line : jsstring) :
  match line with
  | c :: _ => isInlineSpace c = false
  | [] => True
  end ->
  trimStart line = line.
Proof. destruct line as [|c line]; simpl; [reflexivity | now intros ->]. Qed.

Lemma trimStart_idempotent (line : jsstring) :
  trimStart (trimStart line) = trimStart line.
Proof.
  apply trimStart_fixed.
  destruct (trimStart_prefix line) as (_ & _ & _ & H). exact H.
Qed.

Lemma trimStart_snoc (line : jsstring) (x : N) :
  isInlineSpace x = false -> trimStart (line ++ [x]) = trimStart line ++ [x].
Proof.
  intros Hx. induction line as [|c line IH]; simpl; [now rewrite Hx |].
  destruct (isInlineSpace c); [exact IH | reflexivity].
Qed.

Lemma trimEnd_cons (c : N) (line : jsstring) :
  isInlineSpace c = false -> trimEnd (c :: line) = c :: trimEnd line.
Proof.
  intros Hc. unfold trimEnd. simpl rev.
  now rewrite trimStart_snoc, rev_app_distr.
Qed.

Lemma forallb_rev_eq {A} (f : A -> bool) (l : list A) :
  forallb f (rev l) = forallb f l.
Proof.
  induction l as [|x l IH]; simpl; [reflexivity |].
  rewrite forallb_app, IH. simpl. rewrite andb_true_r. apply andb_comm.
Qed.

(** X5: [trim] takes inline blanks off both ends and nothing else: the
    line is blanks, the trimmed line and blanks; the trimmed line neither
    starts nor ends with an inline blank; trimming it again changes
    nothing; and a line of inline blanks alone trims to the empty line. *)
Theorem trim_takes_blanks_off_both_ends (line : jsstring) :
  (exists before after,
      line = before ++ trim line ++ after
      /\ forallb isInlineSpace before = true
      /\ forallb isInlineSpace after = true)
  /\ match trim line with
     | c :: _ => isInlineSpace c = false
     | [] => True
     end
  /\ match rev (trim line) with
     | c :: _ => isInlineSpace c = false
     | [] => True
     end
  /\ trim (trim line) = trim line
  /\ (forallb isInlineSpace line = true <-> trim line = []).
Proof.
  destruct (trimStart_prefix line) as (before & Hline & Hbefore & Hhead).
  destruct (trimStart_prefix (rev (trimStart line)))
    as (after & Hrev & Hafter & Hlast).
  assert (Hend : trimStart line = trim line ++ rev after).
  { unfold trim, trimEnd. rewrite <- rev_app_distr, <- Hrev.
    now rewrite rev_involutive. }
  assert (Hfirst : match trim line with
                   | c :: _ => isInlineSpace c = false
                   | [] => True
                   end).
  { unfold trim. destruct (trimStart line) as [|c t]; [exact I |].
    now rewrite trimEnd_cons. }
  assert (Hback : rev (trim line) = trimStart (rev (trimStart line))).
  { unfold trim, trimEnd. now rewrite rev_involutive. }
  split; [|split; [exact Hfirst | split; [now rewrite Hback |]]].
  - exists before, (rev after). rewrite <- Hend.
    split; [exact Hline | split; [exact Hbefore |]].
    now rewrite forallb_rev_eq.
  - split.
    + unfold trim at 1. rewrite (trimStart_fixed _ Hfirst).
      unfold trimEnd. rewrite Hback, trimStart_idempotent.
      now rewrite <- Hback, rev_involutive.
    + split.
      * intros Hall. rewrite Hline, forallb_app in Hall.
        apply andb_true_iff in Hall. destruct Hall as [_ Hall].
        destruct (trimStart line) as [|c t] eqn:E;
          [unfold trim; now rewrite E |].
        simpl in Hall. rewrite Hhead in Hall. discriminate.
      * intros Hnil. rewrite Hline, Hend, Hnil, !forallb_app, Hbefore.
        simpl. now rewrite forallb_rev_eq.
Qed.

(** ** Lines *)

Lemma splitLines_feed (rest : jsstring) :
  splitLines (LF :: rest) = [] :: splitLines rest.
Proof. destruct rest; reflexivity. Qed.

Lemma splitLines_plain (c : N) (rest : jsstring) :
  isLineTerminator c = false ->
  splitLines (c :: rest)
  = match splitLines rest with
    | l :: ls => (c :: l) :: ls
    | [] => [[c]]
    end.
Proof. intros H. simpl. now rewrite H. Qed.

Lemma splitLines_app (line rest : jsstring) :
  forallb notTerminator line = true ->
  splitLines (line ++ rest)
  = match splitLines rest with
    | l :: ls => (line ++ l) :: ls
    | [] => [line]
    end.
Proof.
  induction line as [|c line IH]; intros H.
  - change ([] ++ rest) with rest.
    now destruct (splitLines_cons rest) as (first & others & ->).
  - simpl in H. apply andb_true_iff in H. destruct H as [Hc H].
    apply negb_true_iff in Hc.
    rewrite <- app_comm_cons, splitLines_plain, IH by assumption.
    now destruct (splitLines rest).
Qed.

Lemma splitLines_joinLines (lines : list jsstring) :
  lines <> [] ->
  forallb (forallb notTerminator) lines = true ->
  splitLines (joinLines lines) = lines.
Proof.
  induction lines as [|l [|l' lines] IH]; intros Hne H; [congruence | |].
  - simpl in *. rewrite andb_true_r in H.
    rewrite <- (app_nil_r l) at 1. rewrite splitLines_app by exact H.
    simpl. now rewrite app_nil_r.
  - change (joinLines (l :: l' :: lines))
      with (l ++ LF :: joinLines (l' :: lines)).
    change (forallb notTerminator l
            && forallb (forallb notTerminator) (l' :: lines) = true) in H.
    apply andb_true_iff in H. destruct H as [Hl H].
    rewrite splitLines_app, splitLines_feed, IH by (assumption || discriminate).
    now rewrite app_nil_r.
Qed.

Lemma splitLines_concat (text : jsstring) :
  concat (splitLines text) = filter notTerminator text.
Proof.
  assert (H : forall n text, length text <= n ->
            concat (splitLines text) = filter notTerminator text).
  { clear text. induction n as [|n IH]; intros [|c text] Hlen;
      simpl in Hlen; try lia; try reflexivity.
    unfold notTerminator at 1. simpl.
    destruct (isLineTerminator c) eqn:E; simpl.
    - destruct text as [|d text]; [reflexivity |].
      destruct ((c =? CR)%N && (d =? LF)%N) eqn:Ecr; simpl.
      + apply andb_true_iff in Ecr. destruct Ecr as [_ Ed].
        apply N.eqb_eq in Ed. subst d.
        change (notTerminator LF) with false. cbv iota.
        apply IH. simpl in Hlen. lia.
      + apply (IH (d :: text)). simpl in *. lia.
    - rewrite <- IH by lia.
      destruct (splitLines text) as [|l ls]; simpl; [|reflexivity].
      reflexivity. }
  apply (H (length text)). lia.
Qed.

(** X6: splitting a text into lines loses nothing but the line
    terminators and keeps the order of what is left; a text without a
    line terminator is one line; and lines without terminators, joined by
    line feeds, split back into the same lines. *)
Theorem splitLines_keeps_text (text : jsstring) :
  concat (splitLines text) = filter notTerminator text
  /\ (forallb notTerminator text = true -> splitLines text = [text])
  /\ (forall lines,
        lines <> [] ->
        forallb (forallb notTerminator) lines = true ->
        splitLines (joinLines lines) = lines).
Proof.
  split; [apply splitLines_concat | split; [|apply splitLines_joinLines]].
  intros H. rewrite <- (app_nil_r text) at 1.
  rewrite splitLines_app by exact H. simpl. now rewrite app_nil_r.
Qed.

(** ** Block comments, printed twice *)

Lemma forallb_trimStart (f : N -> bool) (line : jsstring) :
  forallb f line = true -> forallb f (trimStart line) = true.
Proof.
  intros H. destruct (trimStart_prefix line) as (blanks & Heq & _).
  rewrite Heq, forallb_app in H. apply andb_true_iff in H. apply H.
Qed.

Lemma splitLines_clean (text : jsstring) :
  forallb (forallb notTerminator) (splitLines text) = true.
Proof.
  apply forallb_forall. intros line Hin.
  pose proof (splitLines_no_terminator text) as H.
  rewrite Forall_forall in H. exact (H line Hin).
Qed.

Lemma trimStart_space (line : jsstring) :
  trimStart (lit " " ++ trimStart line) = trimStart line.
Proof. simpl. apply trimStart_idempotent. Qed.

Lemma commentLines_clean (text : jsstring) :
  commentLines text <> []
  /\ forallb (forallb notTerminator) (commentLines text) = true.
Proof.
  unfold commentLines. pose proof (splitLines_clean text) as Hclean.
  destruct (splitLines_cons text) as (first & rest & E).
  rewrite E in *.
  destruct ((length (first :: rest) =? 1)
            || negb (every startsWithStar (first :: rest)));
    [split; [discriminate | exact Hclean] |].
  split; [discriminate |].
  simpl in Hclean. apply andb_true_iff in Hclean.
  destruct Hclean as [Hfirst Hrest]. simpl hd. simpl tl.
  change (forallb notTerminator (trimStart first)
          && forallb (forallb notTerminator)
               (map (fun line => lit " " ++ trimStart line) rest) = true).
  rewrite forallb_trimStart by exact Hfirst. simpl.
  rewrite forallb_forall in Hrest. apply forallb_forall.
  intros line Hin. apply in_map_iff in Hin.
  destruct Hin as (l & <- & Hl). simpl.
  apply forallb_trimStart, Hrest, Hl.
Qed.

(** X7: the lines written for a block comment are a fixed point of the
    rewriting: the comment made of these lines, joined by line feeds, is
    written with the same lines again, so a block comment that was
    re-indented once is not moved a second time. *)
Theorem lineSpaceComment_idempotent (text : jsstring) :
  lineSpaceComment text
  = builders.join builders.hardline (map DString (commentLines text))
  /\ commentLines (joinLines (commentLines text)) = commentLines text
  /\ lineSpaceComment (joinLines (commentLines text)) = lineSpaceComment text.
Proof.
  assert (Hdoc : forall t,
            lineSpaceComment t
            = builders.join builders.hardline (map DString (commentLines t))).
  { intros t. unfold lineSpaceComment, commentLines.
    destruct ((length (splitLines t) =? 1)
              || negb (every startsWithStar (splitLines t)));
      [reflexivity |].
    simpl map. now rewrite map_map. }
  assert (Hfix : commentLines (joinLines (commentLines text))
                 = commentLines text).
  { destruct (commentLines_clean text) as [Hne Hclean].
    unfold commentLines at 1.
    rewrite (splitLines_joinLines _ Hne Hclean).
    unfold commentLines.
    destruct (splitLines_cons text) as (first & rest & E). rewrite E.
    destruct ((length (first :: rest) =? 1)
              || negb (every startsWithStar (first :: rest))) eqn:C;
      [now rewrite C |].
    apply orb_false_iff in C. destruct C as [Clen Cstar].
    apply negb_false_iff in Cstar. rewrite every_startsWithStar in Cstar.
    simpl hd. simpl tl.
    assert (Hlen : (length (trimStart first
                            :: map (fun line => lit " " ++ trimStart line)
                                 rest) =? 1) = false)
      by (simpl in *; now rewrite length_map).
    assert (Hstar : every startsWithStar
                      (trimStart first
                       :: map (fun line => lit " " ++ trimStart line) rest)
                    = true).
    { rewrite every_startsWithStar, forallb_forall.
      rewrite forallb_forall in Cstar. intros line Hin.
      apply in_map_iff in Hin. destruct Hin as (l & <- & Hl).
      cbv beta. rewrite trimStart_space. now apply Cstar. }
    rewrite Hlen, Hstar. cbn [orb negb hd tl].
    rewrite trimStart_idempotent.
    f_equal. rewrite map_map. apply map_ext. intros l.
    simpl. now rewrite trimStart_idempotent. }
  split; [apply Hdoc | split; [exact Hfix |]].
  now rewrite !Hdoc, Hfix.
Qed.

(** ** What [printLineSpace] writes *)

Lemma Woven_length (start : bool) (contents parts : list Doc)
    (mayBlank : bool) :
  Woven start contents parts mayBlank ->
  length parts + (if mayBlank then 1 else 0)
  <= 2 * length contents + (if start then 1 else 0).
Proof.
  induction 1 as [| |contents parts mayBlank c Hw IH];
    rewrite ?length_app; simpl; try lia;
    destruct mayBlank; simpl in IH; lia.
Qed.

Lemma lineSpace_weaves (rec : Node -> bool -> option Doc) (start : bool)
    (tokens : list LineSpace) :
  forall st st' contents,
    foldM (lineSpaceStep rec) tokens st = Some st' ->
    Woven start contents (parts st) (mayPushBlank st) ->
    exists more,
      contentsOf rec tokens = Some more
      /\ Woven start (contents ++ more) (parts st') (mayPushBlank st').
Proof.
  induction tokens as [|t tokens IH]; intros st st' contents Hrun Hw.
  - injection Hrun as <-. exists []. now rewrite app_nil_r.
  - simpl in Hrun.
    destruct (lineSpaceStep rec st t) as [st1|] eqn:Estep; [|discriminate].
    simpl in Hrun.
    assert (Hstep : exists c,
              contentOf rec t = Some c
              /\ Woven start (contents ++ c) (parts st1) (mayPushBlank st1)).
    { destruct st as [p e c l]. unfold mayPushBlank in *.
      destruct t; simpl in Estep.
      - injection Estep as <-. exists []. rewrite app_nil_r.
        split; [reflexivity |].
        destruct l, c, e; simpl in *; try exact Hw.
        now apply Woven_blank.
      - injection Estep as <-. exists []. rewrite app_nil_r. now split.
      - injection Estep as <-. eexists. split; [reflexivity |].
        simpl. eapply Woven_content. exact Hw.
      - injection Estep as <-. eexists. split; [reflexivity |].
        simpl. eapply Woven_content. exact Hw.
      - simpl. destruct (rec value0 false) as [printed|]; [|discriminate].
        injection Estep as <-. eexists. split; [reflexivity |].
        simpl. eapply Woven_content. exact Hw.
      - injection Estep as <-. exists []. rewrite app_nil_r. now split. }
    destruct Hstep as (c & Hc & Hw1).
    destruct (IH st1 st' (contents ++ c) Hrun Hw1) as (more & Hmore & Hw').
    exists (c ++ more). simpl. rewrite Hc, Hmore.
    split; [reflexivity | now rewrite app_assoc].
Qed.

(** X8: the parts [printLineSpace] returns are the comments and the
    slashdash nodes of the tokens, each once and in the order of the
    tokens, with blank lines between them: never two blank lines in a
    row, and none at the front unless the scan was entered with
    [previousWasNewline].  So the parts are at most twice as many as the
    contents, and one more with [previousWasNewline]. *)
Theorem printLineSpace_weaves_blank_lines
    (rec : Node -> bool -> option Doc) (tokens : list LineSpace)
    (previousWasNewline : bool) (parts : list Doc) :
  printLineSpaceTokens rec tokens previousWasNewline = Some parts ->
  exists contents mayBlank,
    contentsOf rec tokens = Some contents
    /\ Woven previousWasNewline contents parts mayBlank
    /\ length parts
       <= 2 * length contents + (if previousWasNewline then 1 else 0).
Proof.
  unfold printLineSpaceTokens. intros Hrun.
  destruct (foldM (lineSpaceStep rec) tokens (lineSpaceInit previousWasNewline))
    as [st'|] eqn:E; [|discriminate].
  injection Hrun as <-.
  destruct (lineSpace_weaves rec previousWasNewline tokens
              (lineSpaceInit previousWasNewline) st' [] E) as (more & Hm & Hw).
  { unfold mayPushBlank. simpl. rewrite andb_true_r. constructor. }
  exists more, (mayPushBlank st'). split; [exact Hm | split; [exact Hw |]].
  apply Woven_length in Hw. simpl app in Hw.
  destruct (mayPushBlank st'); lia.
Qed.

(** Two comment lines with blank lines between them: three parts for two
    contents. *)
Lemma printLineSpace_weaves_blank_lines_witness :
  exists contents mayBlank,
    contentsOf (fun _ _ => None)
      [LSSingleline commentA; LSNewline; LSSpace; LSNewline; LSNewline;
       LSSingleline commentB] = Some contents
    /\ Woven false contents
         [DString (lit "// a"); blank; DString (lit "// b")] mayBlank
    /\ 3 <= 2 * length contents + 0.
Proof.
  exact (printLineSpace_weaves_blank_lines (fun _ _ => None)
           [LSSingleline commentA; LSNewline; LSSpace; LSNewline; LSNewline;
            LSSingleline commentB] false
           [DString (lit "// a"); blank; DString (lit "// b")] eq_refl).
Defined.

(** ** Which argument moves behind the name *)

Lemma filter_nil_forallb (es : list Entry) :
  filter isArgument es = [] ->
  forallb (fun e => negb (isArgument e)) es = true.
Proof.
  induction es as [|e es IH]; simpl; [reflexivity |].
  destruct (isArgument e); [discriminate | exact IH].
Qed.

Lemma fusedArgument_first (node : Node) (arg : Entry) :
  fusedArgument node = Some arg ->
  exists others,
    entries node = arg :: others
    /\ isArgument arg = true
    /\ forallb (fun e => negb (isArgument e)) others = true
    /\ (truthy (entry_leading arg) = false
        \/ trim (orEmpty (entry_leading arg)) = []).
Proof.
  unfold fusedArgument, getArgumentEntries.
  destruct (entries node) as [|first others]; [discriminate |].
  simpl. destruct (isArgument first) eqn:Efirst.
  - destruct (filter isArgument others) eqn:Eothers; [|discriminate].
    simpl.
    destruct (negb (truthy (entry_leading first))
              || negb (0 <? length (trim (orEmpty (entry_leading first)))))
      eqn:Elead; [|discriminate].
    intros [= <-]. exists others.
    split; [reflexivity | split; [exact Efirst |]].
    split; [now apply filter_nil_forallb |].
    apply orb_true_iff in Elead. destruct Elead as [H | H].
    + left. now apply negb_true_iff.
    + right. apply negb_true_iff, Nat.ltb_ge in H.
      destruct (trim (orEmpty (entry_leading first)));
        [reflexivity | simpl in H; lia].
  - destruct (filter isArgument others) as [|a [|b l]]; discriminate.
Qed.

(** X9: an argument moves behind the name only if it is the first entry,
    no other entry is an argument, and it has no leading trivia but
    inline blanks: a second argument, an argument behind a property, and
    an argument with a comment or a line escape in front are never
    moved.  The entries that become header items are then all the other
    entries, and all the entries when none is moved. *)
Theorem fused_argument_only_first
    (shortestRoundTrip : number -> jsstring) (node : Node) :
  (forall arg,
      fusedArgument node = Some arg ->
      exists others,
        entries node = arg :: others
        /\ isArgument arg = true
        /\ forallb (fun e => negb (isArgument e)) others = true
        /\ (truthy (entry_leading arg) = false
            \/ trim (orEmpty (entry_leading arg)) = [])
        /\ headerEntries node = others)
  /\ (fusedArgument node = None ->
      headerEntries node = entries node
      /\ headerName shortestRoundTrip node = printName node)
  /\ (2 <= length (getArgumentEntries node) -> fusedArgument node = None)
  /\ (forall first others,
        entries node = first :: others -> isArgument first = false ->
        fusedArgument node = None).
Proof.
  split; [|split; [|split]].
  - intros arg H. destruct (fusedArgument_first node arg H)
      as (others & He & Ha & Ho & Hl).
    exists others. repeat (split; [assumption |]).
    unfold headerEntries. now rewrite H, He.
  - intros H. unfold headerEntries, headerName. now rewrite H.
  - intros H. unfold fusedArgument.
    destruct (getArgumentEntries node) as [|a [|b l]];
      simpl in H; try lia; reflexivity.
  - intros first others He Hfirst. unfold fusedArgument.
    rewrite He, Hfirst.
    destruct (getArgumentEntries node) as [|a [|b l]]; reflexivity.
Qed.

(** ** The entries in the header *)

Lemma Subseq_app_r {A} (l1 l2 extra : list A) :
  Subseq l1 l2 -> Subseq l1 (l2 ++ extra).
Proof. induction 1; simpl; constructor; assumption. Qed.

Lemma Subseq_last {A} (l : list A) (x : A) : Subseq [x] (l ++ [x]).
Proof.
  induction l as [|y l IH]; simpl.
  - apply Subseq_take, Subseq_nil.
  - apply Subseq_skip, IH.
Qed.

Lemma Subseq_snoc {A} (l1 l2 : list A) (x : A) :
  Subseq l1 l2 -> Subseq (l1 ++ [x]) (l2 ++ [x]).
Proof.
  induction 1 as [l | y l1 l2 _ IH | y l1 l2 _ IH]; simpl.
  - apply Subseq_last.
  - now constructor.
  - now constructor.
Qed.

Lemma keepsItems_refl (st : HeaderState) : keepsItems st st.
Proof. intros H. split; [exact H |]. exists []. now rewrite app_nil_r. Qed.

Lemma keepsItems_trans (st1 st2 st3 : HeaderState) :
  keepsItems st1 st2 -> keepsItems st2 st3 -> keepsItems st1 st3.
Proof.
  intros H12 H23 H1. destruct (H12 H1) as [H2 [e2 E2]].
  destruct (H23 H2) as [H3 [e3 E3]]. split; [exact H3 |].
  exists (e2 ++ e3). now rewrite E3, E2, app_assoc.
Qed.

Lemma pushAt_heads (d : Doc) (h : list (list Doc)) (i : nat) :
  nonEmptyItems h ->
  nonEmptyItems (pushAt i d h) /\ itemHeads (pushAt i d h) = itemHeads h.
Proof.
  revert i. induction h as [|item h IH]; intros i H; [now destruct i |].
  inversion H as [|? ? Hitem Hrest]; subst. destruct i as [|i]; simpl.
  - split.
    + constructor; [|exact Hrest]. now destruct item.
    + destruct item; [contradiction | reflexivity].
  - destruct (IH i Hrest) as [Hn He]. split.
    + now constructor.
    + unfold itemHeads in *. now rewrite He.
Qed.

Lemma keepsItems_pushContinuation (st : HeaderState) :
  keepsItems st (pushContinuation st).
Proof.
  intros H. unfold pushContinuation.
  destruct (lastHeaderItem st) as [i | item]; simpl.
  - destruct (pushAt_heads continuation (header st) i H) as [Hn He].
    split; [exact Hn |]. exists []. now rewrite app_nil_r.
  - split; [exact H |]. exists []. now rewrite app_nil_r.
Qed.

Lemma keepsItems_push (item : list Doc) (st st' : HeaderState) :
  item <> [] -> header st' = header st ++ [item] -> keepsItems st st'.
Proof.
  intros Hitem Hh H. rewrite Hh. split.
  - apply Forall_app. split; [exact H |]. now constructor.
  - exists [hd_error item]. unfold itemHeads. now rewrite map_app.
Qed.

Lemma keepsItems_lineEscapeStep (text : jsstring) (st : HeaderState)
    (nested : LineSpace) :
  keepsItems st (lineEscapeStep text st nested).
Proof.
  destruct nested; simpl; try apply keepsItems_refl.
  - eapply keepsItems_trans; [apply keepsItems_pushContinuation |].
    now apply (keepsItems_push (singlelineItem text0)).
  - eapply keepsItems_trans; [apply keepsItems_pushContinuation |].
    apply keepsItems_trans
      with (pushLast [headerComment text] (pushContinuation st));
      [now apply (keepsItems_push [headerComment text]) |].
    eapply keepsItems_trans; [apply keepsItems_pushContinuation |].
    now apply (keepsItems_push (singlelineItem text0)).
Qed.

Lemma keepsItems_fold_left {A} (step : HeaderState -> A -> HeaderState) :
  (forall st x, keepsItems st (step st x)) ->
  forall l st, keepsItems st (fold_left step l st).
Proof.
  intros Hstep. induction l as [|x l IH]; intros st; simpl.
  - apply keepsItems_refl.
  - eapply keepsItems_trans; [apply Hstep | apply IH].
Qed.

Lemma keepsItems_foldM {A} (step : HeaderState -> A -> option HeaderState) :
  (forall st x st', step st x = Some st' -> keepsItems st st') ->
  forall l st st', foldM step l st = Some st' -> keepsItems st st'.
Proof.
  intros Hstep. induction l as [|x l IH]; intros st st' Hrun; simpl in Hrun.
  - injection Hrun as <-. apply keepsItems_refl.
  - destruct (step st x) as [st1|] eqn:E; [|discriminate].
    eapply keepsItems_trans; [eapply Hstep; exact E | now apply IH].
Qed.

Section HeaderItems.
Variable shortestRoundTrip : number -> jsstring.
Variable parseLineSpace : jsstring -> list LineSpace.
Variable parseNodeSpace : jsstring -> list NodeSpace.
Variable printNode : Node -> bool -> option Doc.

Lemma keepsItems_headerStep (st st' : HeaderState) (whitespace : NodeSpace) :
  headerStep shortestRoundTrip parseLineSpace printNode st whitespace
  = Some st' ->
  keepsItems st st'.
Proof.
  intros Hstep. destruct whitespace; simpl in Hstep.
  - injection Hstep as <-. apply keepsItems_refl.
  - injection Hstep as <-. apply keepsItems_fold_left.
    intros s x. apply keepsItems_lineEscapeStep.
  - injection Hstep as <-.
    eapply keepsItems_trans; [apply keepsItems_pushContinuation |].
    eapply keepsItems_push; [|reflexivity]. discriminate.
  - unfold headerStep in Hstep.
    destruct (printDocument parseLineSpace printNode value0);
      [|discriminate].
    injection Hstep as <-.
    eapply keepsItems_trans; [apply keepsItems_pushContinuation |].
    eapply keepsItems_push; [|reflexivity]. discriminate.
  - injection Hstep as <-.
    eapply keepsItems_trans; [apply keepsItems_pushContinuation |].
    eapply keepsItems_push; [|reflexivity]. discriminate.
  - injection Hstep as <-. apply keepsItems_refl.
Qed.

Lemma keepsItems_addCommentToHeader (text : jsstring)
    (st st' : HeaderState) :
  addCommentToHeader shortestRoundTrip parseLineSpace parseNodeSpace
    printNode text st = Some st' ->
  keepsItems st st'.
Proof.
  apply keepsItems_foldM. intros s x s'. apply keepsItems_headerStep.
Qed.

Lemma entries_in_order (es : list Entry) :
  forall (st st' : HeaderState) (done : list (option Doc)),
    foldM (entryStep shortestRoundTrip parseLineSpace parseNodeSpace
             printNode) es st = Some st' ->
    nonEmptyItems (header st) ->
    Subseq done (itemHeads (header st)) ->
    nonEmptyItems (header st')
    /\ Subseq (done ++ entryHeads shortestRoundTrip es)
              (itemHeads (header st')).
Proof.
  induction es as [|e es IH]; intros st st' done Hrun Hn Hsub;
    simpl in Hrun.
  - injection Hrun as <-. simpl. now rewrite app_nil_r.
  - destruct (entryStep _ _ _ _ st e) as [st1|] eqn:E; [|discriminate].
    simpl in Hrun. unfold entryStep in E.
    assert (Hlead : exists st0,
               keepsItems st st0
               /\ st1 = pushLast [DString (printEntry shortestRoundTrip e)]
                          (pushContinuation st0)).
    { destruct (truthy (entry_leading e)).
      - destruct (addCommentToHeader _ _ _ _ _ st) as [st0|] eqn:E0;
          [|discriminate].
        injection E as <-. exists st0.
        split; [|reflexivity].
        eapply keepsItems_addCommentToHeader. exact E0.
      - injection E as <-. exists st. split; [apply keepsItems_refl |].
        reflexivity. }
    destruct Hlead as (st0 & Hkeep & ->).
    destruct (Hkeep Hn) as [Hn0 [extra0 He0]].
    destruct (keepsItems_pushContinuation st0 Hn0) as [Hn1 [extra1 He1]].
    specialize (IH _ _ (done ++ [Some (DString
                                  (printEntry shortestRoundTrip e))]) Hrun).
    simpl in IH. rewrite <- app_assoc in IH. apply IH.
    + apply Forall_app. split; [exact Hn1 |]. now constructor.
    + unfold itemHeads. rewrite map_app. simpl.
      apply Subseq_snoc. fold (itemHeads (header (pushContinuation st0))).
      rewrite He1, He0. now apply Subseq_app_r, Subseq_app_r.
Qed.

Lemma keepsItems_closeHeader (node : Node) (st : HeaderState) :
  keepsItems st (closeHeader node st).
Proof.
  unfold closeHeader.
  destruct (withoutBlock node); [destruct (children node) |];
    try apply keepsItems_refl;
    (eapply keepsItems_trans; [apply keepsItems_pushContinuation |]);
    (eapply keepsItems_push; [|reflexivity]); discriminate.
Qed.
End HeaderItems.

(** X10: the header keeps every entry, in the order of the source.  The
    entries that are not moved behind the name each start an item of
    their own in the finished header, in the order of [node.entries];
    the items of comments, of slashdashes and of the brace come between
    and behind them, and no item is empty. *)
Theorem header_keeps_entries_in_order
    (shortestRoundTrip : number -> jsstring)
    (parseLineSpace : jsstring -> list LineSpace)
    (parseNodeSpace : jsstring -> list NodeSpace)
    (printNode : Node -> bool -> option Doc)
    (node : Node) (st : HeaderState) :
  headerOfNode shortestRoundTrip parseLineSpace parseNodeSpace printNode
    node = Some st ->
  nonEmptyItems (header (closeHeader node st))
  /\ Subseq (entryHeads shortestRoundTrip (headerEntries node))
            (itemHeads (header (closeHeader node st))).
Proof.
  unfold headerOfNode.
  destruct (foldM _ (headerEntries node) _) as [st1|] eqn:E;
    [|discriminate].
  simpl. intros Hrest.
  destruct (entries_in_order shortestRoundTrip parseLineSpace
              parseNodeSpace printNode (headerEntries node) _ _ [] E)
    as [Hn1 Hsub1]; [constructor | constructor |].
  simpl in Hsub1.
  assert (Hkeep : keepsItems st1 st).
  { destruct (truthy (beforeChildren node)).
    - eapply keepsItems_addCommentToHeader. exact Hrest.
    - injection Hrest as <-. apply keepsItems_refl. }
  destruct (keepsItems_trans _ _ _ Hkeep (keepsItems_closeHeader node st)
              Hn1) as [Hn [extra He]].
  split; [exact Hn |]. rewrite He. now apply Subseq_app_r.
Qed.

Lemma header_keeps_entries_in_order_witness :
  headerOfNode Samples.noRoundTrip Samples.commentTokens
    Samples.commentInNode (fun _ _ => None) Samples.commented
  = Some commentedHeader
  /\ nonEmptyItems (header (closeHeader Samples.commented commentedHeader))
  /\ Subseq (entryHeads Samples.noRoundTrip
               (headerEntries Samples.commented))
            (itemHeads
               (header (closeHeader Samples.commented commentedHeader))).
Proof.
  split; [reflexivity |].
  apply (header_keeps_entries_in_order Samples.noRoundTrip
           Samples.commentTokens Samples.commentInNode (fun _ _ => None)
           Samples.commented commentedHeader).
  reflexivity.
Defined.

(** ** When a header is broken *)

Lemma lineEscapeStep_forcesBreak (text : jsstring) (st : HeaderState)
    (nested : LineSpace) :
  forcesBreak (header (lineEscapeStep text st nested))
  = forcesBreak (header st) || isComment nested.
Proof.
  destruct nested; unfold lineEscapeStep, pushItem, pushLast, detach;
    cbn [header isComment]; rewrite ?orb_false_r; try reflexivity.
  - rewrite forcesBreak_app, pushContinuation_forcesBreak. simpl.
    now rewrite !orb_true_r.
  - rewrite forcesBreak_app, pushContinuation_forcesBreak. simpl.
    now rewrite !orb_true_r.
Qed.

Lemma lineEscape_forcesBreak (text : jsstring) (tokens : list LineSpace) :
  forall st,
    forcesBreak (header (fold_left (lineEscapeStep text) tokens st))
    = forcesBreak (header st) || existsb isComment tokens.
Proof.
  induction tokens as [|t tokens IH]; intros st; simpl.
  - now rewrite orb_false_r.
  - now rewrite IH, lineEscapeStep_forcesBreak, orb_assoc.
Qed.

Section BrokenHeader.
Variable shortestRoundTrip : number -> jsstring.
Variable parseLineSpace : jsstring -> list LineSpace.
Variable parseNodeSpace : jsstring -> list NodeSpace.
Variable printNode : Node -> bool -> option Doc.

Lemma headerTokens_forcesBreak (tokens : list NodeSpace) :
  slashdashDocuments tokens = [] ->
  forall st,
    exists st',
      foldM (headerStep shortestRoundTrip parseLineSpace printNode)
        tokens st = Some st'
      /\ forcesBreak (header st')
         = forcesBreak (header st)
           || existsb (escapeHoldsComment parseLineSpace) tokens.
Proof.
  induction tokens as [|t tokens IH]; intros Hdocs st.
  - exists st. split; [reflexivity |]. simpl. now rewrite orb_false_r.
  - assert (Hstep : exists st1,
               headerStep shortestRoundTrip parseLineSpace printNode st t
               = Some st1
               /\ forcesBreak (header st1)
                  = forcesBreak (header st)
                    || escapeHoldsComment parseLineSpace t
               /\ slashdashDocuments tokens = []).
    { destruct t; simpl in Hdocs; try discriminate;
        (eexists; split; [reflexivity |]); (split; [|exact Hdocs]); simpl;
        rewrite ?orb_false_r; try reflexivity.
      - apply lineEscape_forcesBreak.
      - rewrite forcesBreak_app, pushContinuation_forcesBreak. simpl.
        now rewrite orb_false_r.
      - rewrite forcesBreak_app, pushContinuation_forcesBreak. simpl.
        now rewrite headerComment_noBreak, orb_false_r. }
    destruct Hstep as (st1 & Hrun & Hbreak & Hrest).
    destruct (IH Hrest st1) as (st' & Hrun' & Hbreak').
    exists st'. split.
    + simpl. rewrite Hrun. exact Hrun'.
    + rewrite Hbreak', Hbreak. simpl. now rewrite orb_assoc.
Qed.

Lemma cleanText_forcesBreak (text : jsstring) (st : HeaderState) :
  cleanText parseNodeSpace text = true ->
  exists st',
    addCommentToHeader shortestRoundTrip parseLineSpace parseNodeSpace
      printNode text st = Some st'
    /\ forcesBreak (header st')
       = forcesBreak (header st)
         || commentIn parseLineSpace parseNodeSpace text.
Proof.
  unfold cleanText. intros H. apply headerTokens_forcesBreak.
  now destruct (slashdashDocuments (parseNodeSpace text)).
Qed.

Lemma entries_forcesBreak (es : list Entry) :
  forallb (cleanText parseNodeSpace) (flat_map triviaOf es) = true ->
  forall st,
    exists st',
      foldM (entryStep shortestRoundTrip parseLineSpace parseNodeSpace
               printNode) es st = Some st'
      /\ forcesBreak (header st')
         = forcesBreak (header st)
           || existsb (commentIn parseLineSpace parseNodeSpace)
                (flat_map triviaOf es).
Proof.
  induction es as [|e es IH]; intros Hclean st.
  - exists st. split; [reflexivity |]. simpl. now rewrite orb_false_r.
  - simpl in Hclean. rewrite forallb_app in Hclean.
    apply andb_true_iff in Hclean. destruct Hclean as [He Hes].
    assert (Hstep : exists st1,
               entryStep shortestRoundTrip parseLineSpace parseNodeSpace
                 printNode st e = Some st1
               /\ forcesBreak (header st1)
                  = forcesBreak (header st)
                    || existsb (commentIn parseLineSpace parseNodeSpace)
                         (triviaOf e)).
    { unfold entryStep, triviaOf in *.
      destruct (truthy (entry_leading e)).
      - simpl in He. rewrite andb_true_r in He.
        destruct (cleanText_forcesBreak _ st He) as (st0 & -> & Hbreak).
        eexists. split; [reflexivity |]. simpl.
        rewrite forcesBreak_app, pushContinuation_forcesBreak, Hbreak.
        simpl. now rewrite !orb_false_r.
      - eexists. split; [reflexivity |]. simpl.
        now rewrite forcesBreak_app, pushContinuation_forcesBreak. }
    destruct Hstep as (st1 & Hrun & Hbreak).
    destruct (IH Hes st1) as (st' & Hrun' & Hbreak').
    exists st'. split.
    + simpl. rewrite Hrun. exact Hrun'.
    + rewrite Hbreak', Hbreak. simpl. now rewrite existsb_app, orb_assoc.
Qed.

Lemma closeHeader_forcesBreak (node : Node) (st : HeaderState) :
  forcesBreak (header (closeHeader node st)) = forcesBreak (header st).
Proof.
  unfold closeHeader.
  destruct (withoutBlock node); [destruct (children node) |];
    try reflexivity; simpl;
    rewrite forcesBreak_app, pushContinuation_forcesBreak; simpl;
    now rewrite orb_false_r.
Qed.
End BrokenHeader.

(** X11: a header is forced onto several lines exactly when a line
    escape of its trivia holds a comment.  When the trivia of the header
    holds no slashdash child block, the group of the header is made
    without a call of [printNode], and it carries a break parent if and
    only if one of the line escapes in front of an entry or of the child
    block holds a line comment or a block comment: block comments,
    slashdash entries, blanks and line escapes without a comment never
    force the break. *)
Theorem header_broken_iff_escaped_comment
    (shortestRoundTrip : number -> jsstring)
    (parseLineSpace : jsstring -> list LineSpace)
    (parseNodeSpace : jsstring -> list NodeSpace)
    (getStringWidth : jsstring -> nat)
    (printNode : Node -> bool -> option Doc) (node : Node) :
  noSlashdashDocument parseNodeSpace node = true ->
  exists group,
    nodeGroup shortestRoundTrip parseLineSpace parseNodeSpace
      getStringWidth printNode node = Some group
    /\ hasBreakParent group
       = escapedComment parseLineSpace parseNodeSpace node.
Proof.
  unfold noSlashdashDocument, escapedComment, headerTrivia, nodeGroup,
    headerOfNode.
  rewrite forallb_app, existsb_app. intros H.
  apply andb_true_iff in H. destruct H as [Hes Hbefore].
  destruct (entries_forcesBreak shortestRoundTrip parseLineSpace
              parseNodeSpace printNode (headerEntries node) Hes
              {| header := []; lastHeaderItem := Detached [] |})
    as (st1 & -> & Hbreak1).
  simpl in Hbreak1. simpl bind.
  destruct (truthy (beforeChildren node)).
  - simpl in Hbefore. rewrite andb_true_r in Hbefore.
    destruct (cleanText_forcesBreak shortestRoundTrip parseLineSpace
                parseNodeSpace printNode _ st1 Hbefore)
      as (st & -> & Hbreak).
    eexists. split; [reflexivity |].
    rewrite hasBreakParent_headerGroup, closeHeader_forcesBreak, Hbreak,
      Hbreak1.
    simpl. now rewrite orb_false_r.
  - eexists. split; [reflexivity |].
    rewrite hasBreakParent_headerGroup, closeHeader_forcesBreak, Hbreak1.
    simpl. now rewrite orb_false_r.
Qed.

Lemma header_broken_iff_escaped_comment_witness :
  noSlashdashDocument Samples.commentInNode Samples.commented = true
  /\ escapedComment Samples.commentTokens Samples.commentInNode
       Samples.commented = true
  /\ exists group,
       nodeGroup Samples.noRoundTrip Samples.commentTokens
         Samples.commentInNode Samples.width (fun _ _ => None)
         Samples.commented = Some group
       /\ hasBreakParent group
          = escapedComment Samples.commentTokens Samples.commentInNode
              Samples.commented.
Proof.
  split; [reflexivity |]. split; [reflexivity |].
  apply (header_broken_iff_escaped_comment Samples.noRoundTrip
           Samples.commentTokens Samples.commentInNode Samples.width
           (fun _ _ => None) Samples.commented).
  reflexivity.
Defined.

(** ** A header on one line *)

Lemma takes_compose (f g : (Z -> bool) -> Z -> bool) (j k : nat) :
  takes f j -> takes g k -> takes (fun rest => f (g rest)) (j + k).
Proof.
  intros Hf Hg rest width Hwidth. rewrite Hf by exact Hwidth.
  destruct (Z.ltb_spec (width - Z.of_nat j) 0) as [Hj | Hj].
  - destruct (Z.ltb_spec (width - Z.of_nat (j + k)) 0); [reflexivity | lia].
  - rewrite Hg by exact Hj.
    destruct (Z.ltb_spec (width - Z.of_nat j - Z.of_nat k) 0),
             (Z.ltb_spec (width - Z.of_nat (j + k)) 0); try lia;
      try reflexivity.
    f_equal. lia.
Qed.

Lemma joinParts_cons (sep d : Doc) (docs : list Doc) :
  docs <> [] ->
  builders.joinParts sep (d :: docs)
  = d :: sep :: builders.joinParts sep docs.
Proof. destruct docs; [contradiction | reflexivity]. Qed.

Lemma plainItems_cons (t t' : jsstring) (texts : list jsstring) :
  plainItems (t :: t' :: texts)
  = [DString t; continuation] :: plainItems (t' :: texts).
Proof. reflexivity. Qed.

Lemma plainItems_nonempty (t : jsstring) (texts : list jsstring) :
  map DArray (plainItems (t :: texts)) <> [].
Proof. destruct texts; discriminate. Qed.

Lemma plainItems_forcesBreak (texts : list jsstring) :
  forcesBreak (plainItems texts) = false.
Proof.
  induction texts as [|t [|t' texts] IH]; try reflexivity.
  rewrite plainItems_cons. unfold forcesBreak in *.
  cbn [existsb]. now rewrite IH.
Qed.

(** Pushing the continuation on the last item and then a new item. *)
Lemma plainItems_snoc (t : jsstring) (texts : list jsstring) :
  texts <> [] ->
  pushAt (length texts - 1) continuation (plainItems texts) ++ [[DString t]]
  = plainItems (texts ++ [t]).
Proof.
  induction texts as [|a [|b texts] IH]; intros Hne;
    [contradiction | reflexivity |].
  rewrite plainItems_cons.
  change ((a :: b :: texts) ++ [t]) with (a :: b :: (texts ++ [t])).
  rewrite plainItems_cons.
  replace (length (a :: b :: texts) - 1) with (S (length (b :: texts) - 1))
    by (simpl; lia).
  cbn [pushAt]. rewrite <- app_comm_cons. f_equal.
  apply IH. discriminate.
Qed.

Section FlatHeader.
Variable getStringWidth : jsstring -> nat.
Variable printWidth : nat.
Variable tabWidth : nat.

Lemma layout_plainItems (texts : list jsstring) :
  forall ind rest st,
    out (layout getStringWidth printWidth tabWidth ind MODE_FLAT
           (builders.join builders.line (map DArray (plainItems texts)))
           rest st)
    = out st ++ spaced texts.
Proof.
  induction texts as [|t [|t' texts] IH]; intros ind rest st.
  - simpl. now rewrite app_nil_r.
  - reflexivity.
  - rewrite plainItems_cons. cbn [map]. unfold builders.join.
    rewrite joinParts_cons by apply plainItems_nonempty.
    rewrite !layout_array_cons.
    unfold builders.join in IH. rewrite IH.
    change (spaced (t :: t' :: texts))
      with (t ++ [SPACE] ++ spaced (t' :: texts)).
    simpl. now rewrite app_nil_r, <- !app_assoc.
Qed.

Lemma takes_string (s : jsstring) :
  takes (fits getStringWidth MODE_FLAT (DString s)) (getStringWidth s).
Proof. intros rest width _. reflexivity. Qed.

Lemma takes_line : takes (fits getStringWidth MODE_FLAT DLine) 1.
Proof. intros rest width _. reflexivity. Qed.

Lemma takes_nothing :
  takes (fits getStringWidth MODE_FLAT (DArray [])) 0.
Proof.
  intros rest width Hwidth. simpl. rewrite Z.sub_0_r.
  now destruct (Z.ltb_spec width 0); [lia |].
Qed.

Lemma takes_cons (d : Doc) (docs : list Doc) (j k : nat) :
  takes (fits getStringWidth MODE_FLAT d) j ->
  takes (fits getStringWidth MODE_FLAT (DArray docs)) k ->
  takes (fits getStringWidth MODE_FLAT (DArray (d :: docs))) (j + k).
Proof.
  intros Hd Hdocs.
  apply (takes_compose (fits getStringWidth MODE_FLAT d)
           (fits getStringWidth MODE_FLAT (DArray docs)) j k Hd Hdocs).
Qed.

Lemma takes_width (measure : (Z -> bool) -> Z -> bool) (j k : nat) :
  j = k -> takes measure j -> takes measure k.
Proof. now intros ->. Qed.

Lemma fits_plainItems (texts : list jsstring) :
  takes (fits getStringWidth MODE_FLAT
           (builders.join builders.line (map DArray (plainItems texts))))
        (itemsWidth getStringWidth texts).
Proof.
  induction texts as [|t [|t' texts] IH].
  - apply takes_nothing.
  - apply takes_width with (getStringWidth t + 0 + 0); [simpl; lia |].
    apply takes_cons; [|apply takes_nothing].
    apply takes_cons; [apply takes_string | apply takes_nothing].
  - rewrite plainItems_cons. cbn [map]. unfold builders.join.
    rewrite joinParts_cons by apply plainItems_nonempty.
    apply takes_width
      with ((getStringWidth t + (getStringWidth [] + 0))
            + (1 + itemsWidth getStringWidth (t' :: texts)));
      [change (itemsWidth getStringWidth (t :: t' :: texts))
         with (getStringWidth t + getStringWidth [] + 1
               + itemsWidth getStringWidth (t' :: texts)); lia |].
    apply takes_cons; [|apply takes_cons; [apply takes_line | exact IH]].
    apply takes_cons; [apply takes_string |].
    apply takes_cons; [apply takes_string | apply takes_nothing].
Qed.
End FlatHeader.

Lemma pushAt_length (d : Doc) (h : list (list Doc)) (i : nat) :
  length (pushAt i d h) = length h.
Proof.
  revert i. induction h as [|item h IH]; intros [|i]; simpl; auto.
Qed.

Lemma plainItems_length (texts : list jsstring) :
  length (plainItems texts) = length texts.
Proof.
  induction texts as [|t [|t' texts] IH]; try reflexivity.
  rewrite plainItems_cons. simpl length in *. now rewrite IH.
Qed.

Lemma plainState_header (texts : list jsstring) (t : jsstring)
    (st : HeaderState) :
  plainState texts st ->
  header (pushContinuation st) ++ [[DString t]] = plainItems (texts ++ [t]).
Proof.
  intros [Hh Hlast]. unfold pushContinuation. destruct texts as [|a texts].
  - destruct Hlast as [item ->]. simpl. now rewrite Hh.
  - rewrite Hlast. cbn [header]. rewrite Hh. now apply plainItems_snoc.
Qed.

Lemma plainState_push (texts : list jsstring) (t : jsstring)
    (st : HeaderState) :
  plainState texts st ->
  plainState (texts ++ [t]) (pushLast [DString t] (pushContinuation st)).
Proof.
  intros Hst. split.
  - now apply plainState_header.
  - assert (Hlen : length (header (pushContinuation st)) = length texts).
    { destruct Hst as [Hh Hlast]. unfold pushContinuation.
      destruct (lastHeaderItem st); cbn [header];
        rewrite ?pushAt_length, Hh; apply plainItems_length. }
    cbn [pushLast lastHeaderItem]. rewrite Hlen.
    destruct (texts ++ [t]) eqn:E; [now destruct texts |].
    rewrite <- E, length_app. simpl. f_equal. lia.
Qed.

Lemma lineEscape_plain (text : jsstring) (tokens : list LineSpace)
    (st : HeaderState) :
  existsb isComment tokens = false ->
  fold_left (lineEscapeStep text) tokens st = st.
Proof.
  induction tokens as [|t tokens IH]; intros H; [reflexivity |].
  simpl in H. apply orb_false_iff in H. destruct H as [Ht H].
  simpl. destruct t; try discriminate; now apply IH.
Qed.

Section PlainHeader.
Variable shortestRoundTrip : number -> jsstring.
Variable parseLineSpace : jsstring -> list LineSpace.
Variable parseNodeSpace : jsstring -> list NodeSpace.
Variable printNode : Node -> bool -> option Doc.

Lemma plainTokens_skip (tokens : list NodeSpace) (st : HeaderState) :
  forallb (plainToken parseLineSpace) tokens = true ->
  foldM (headerStep shortestRoundTrip parseLineSpace printNode) tokens st
  = Some st.
Proof.
  induction tokens as [|t tokens IH]; intros H; [reflexivity |].
  simpl in H. apply andb_true_iff in H. destruct H as [Ht H].
  simpl. destruct t; try discriminate; simpl; try now apply IH.
  simpl in Ht. apply negb_true_iff in Ht.
  rewrite lineEscape_plain by exact Ht. now apply IH.
Qed.

Lemma plainEntries (es : list Entry) :
  forallb (fun text => forallb (plainToken parseLineSpace)
                         (parseNodeSpace text))
          (flat_map triviaOf es) = true ->
  forall (done : list jsstring) (st : HeaderState),
    plainState done st ->
    exists st',
      foldM (entryStep shortestRoundTrip parseLineSpace parseNodeSpace
               printNode) es st = Some st'
      /\ plainState (done ++ map (printEntry shortestRoundTrip) es) st'.
Proof.
  induction es as [|e es IH]; intros H done st Hst.
  - exists st. split; [reflexivity |]. simpl. now rewrite app_nil_r.
  - simpl in H. rewrite forallb_app in H.
    apply andb_true_iff in H. destruct H as [He Hes].
    assert (Hstep :
              entryStep shortestRoundTrip parseLineSpace parseNodeSpace
                printNode st e
              = Some (pushLast [DString (printEntry shortestRoundTrip e)]
                        (pushContinuation st))).
    { unfold entryStep, triviaOf in *.
      destruct (truthy (entry_leading e)); [|reflexivity].
      simpl in He. rewrite andb_true_r in He.
      unfold addCommentToHeader. now rewrite plainTokens_skip. }
    destruct (IH Hes (done ++ [printEntry shortestRoundTrip e]) _
                (plainState_push done (printEntry shortestRoundTrip e) st
                   Hst))
      as (st' & Hrun & Hst').
    exists st'. split.
    + simpl. rewrite Hstep. exact Hrun.
    + simpl. now rewrite <- app_assoc in Hst'.
Qed.

Lemma plainHeader (node : Node) :
  plainHeaderTrivia parseLineSpace parseNodeSpace node = true ->
  exists st,
    headerOfNode shortestRoundTrip parseLineSpace parseNodeSpace printNode
      node = Some st
    /\ header (closeHeader node st)
       = plainItems (itemTexts shortestRoundTrip node).
Proof.
  unfold plainHeaderTrivia, headerTrivia. rewrite forallb_app.
  intros H. apply andb_true_iff in H. destruct H as [Hes Hbefore].
  destruct (plainEntries (headerEntries node) Hes []
              {| header := []; lastHeaderItem := Detached [] |})
    as (st & Hrun & Hst).
  { split; [reflexivity |]. now exists []. }
  simpl in Hst. exists st. split.
  - unfold headerOfNode. rewrite Hrun. simpl.
    destruct (truthy (beforeChildren node)); [|reflexivity].
    simpl in Hbefore. rewrite andb_true_r in Hbefore.
    unfold addCommentToHeader. now rewrite plainTokens_skip.
  - unfold closeHeader, itemTexts, braceText.
    destruct (withoutBlock node); [destruct (children node) |];
      cbn [pushItem header];
      try (now apply plainState_header).
    rewrite app_nil_r. apply Hst.
Qed.
End PlainHeader.

(** X12: a header without comments and slashdashes that fits is printed
    on one line.  When the trivia of the header holds only blanks and
    line escapes without comments, the header group is made without a
    call of [printNode]; when it fits, it is printed as the name, a
    space, and the texts of the entries and of the opening brace with one
    space between them, whatever blanks and line escapes the source had
    between them; and it fits when the widths of these strings, of the
    empty continuations and of the spaces add up to no more than what is
    left of the line, and what follows the group on the line fits. *)
Theorem plain_header_on_one_line
    (shortestRoundTrip : number -> jsstring)
    (parseLineSpace : jsstring -> list LineSpace)
    (parseNodeSpace : jsstring -> list NodeSpace)
    (getStringWidth : jsstring -> nat)
    (printNode : Node -> bool -> option Doc) (node : Node) :
  plainHeaderTrivia parseLineSpace parseNodeSpace node = true ->
  exists contents,
    nodeGroup shortestRoundTrip parseLineSpace parseNodeSpace
      getStringWidth printNode node = Some (DGroup contents)
    /\ forall printWidth tabWidth ind rest lst,
         (fitsFrom getStringWidth MODE_FLAT contents rest
            (Z.of_nat printWidth - Z.of_nat (pos lst)) = true ->
          out (layout getStringWidth printWidth tabWidth ind MODE_BREAK
                 (DGroup contents) rest lst)
          = out lst ++ headerLine shortestRoundTrip node)
         /\ ((Z.of_nat (flatWidth getStringWidth shortestRoundTrip node)
              <= Z.of_nat printWidth - Z.of_nat (pos lst))%Z ->
             rest (Z.of_nat printWidth - Z.of_nat (pos lst)
                   - Z.of_nat (flatWidth getStringWidth shortestRoundTrip
                                 node))%Z = true ->
             fitsFrom getStringWidth MODE_FLAT contents rest
               (Z.of_nat printWidth - Z.of_nat (pos lst)) = true).
Proof.
  intros Hplain.
  destruct (plainHeader shortestRoundTrip parseLineSpace parseNodeSpace
              printNode node Hplain) as (st & Hrun & Hheader).
  eexists. split.
  { unfold nodeGroup. rewrite Hrun. simpl. rewrite Hheader.
    unfold headerGroup, builders.group. reflexivity. }
  intros printWidth tabWidth ind rest lst. split.
  - intros Hfits.
    change (layout getStringWidth printWidth tabWidth ind MODE_BREAK
              (DGroup ?c) rest lst)
      with (layout getStringWidth printWidth tabWidth ind
              (fst (enterGroup getStringWidth printWidth MODE_BREAK c rest
                      lst))
              c rest
              (snd (enterGroup getStringWidth printWidth MODE_BREAK c rest
                      lst))).
    unfold enterGroup.
    change (pos (setRemeasure false lst)) with (pos lst).
    rewrite Hfits.
    assert (Hbreak :
              hasBreakParent
                (headerGroup (headerName shortestRoundTrip node)
                   (nameAlign getStringWidth node)
                   (plainItems (itemTexts shortestRoundTrip node)))
              = false).
    { rewrite hasBreakParent_headerGroup. apply plainItems_forcesBreak. }
    unfold headerGroup, builders.group in Hbreak.
    change (hasBreakParent (DGroup ?c)) with (hasBreakParent c) in Hbreak.
    rewrite Hbreak.
    cbn [negb andb fst snd].
    do 3 rewrite (layout_array_cons getStringWidth printWidth tabWidth
                    ind MODE_FLAT).
    unfold builders.ifBreak.
    change (layout getStringWidth printWidth tabWidth ind MODE_FLAT
              (DIfBreak ?b ?f) ?r ?s)
      with (layout getStringWidth printWidth tabWidth ind MODE_FLAT f r s).
    do 2 rewrite (layout_array_cons getStringWidth printWidth tabWidth
                    ind MODE_FLAT).
    repeat change (layout getStringWidth printWidth tabWidth ind MODE_FLAT
                     (DArray []) ?r ?s) with s.
    rewrite layout_plainItems. unfold headerLine. simpl.
    now rewrite app_nil_r, <- !app_assoc.
  - intros Hwidth Hrest. unfold fitsFrom.
    destruct (Z.ltb_spec (Z.of_nat printWidth - Z.of_nat (pos lst)) 0);
      [lia |].
    assert (Htakes :
              takes (fits getStringWidth MODE_FLAT
                       (DArray
                          [DString (headerName shortestRoundTrip node);
                           continuation;
                           DArray
                             [builders.line;
                              builders.join builders.line
                                (map DArray
                                   (plainItems
                                      (itemTexts shortestRoundTrip
                                         node)))]]))
                    (flatWidth getStringWidth shortestRoundTrip node)).
    { apply takes_width
        with (getStringWidth (headerName shortestRoundTrip node)
              + (getStringWidth []
                 + ((1 + (itemsWidth getStringWidth
                            (itemTexts shortestRoundTrip node) + 0))
                    + 0)));
        [unfold flatWidth; lia |].
      apply takes_cons; [apply takes_string |].
      apply takes_cons; [apply takes_string |].
      apply takes_cons; [|apply takes_nothing].
      apply takes_cons; [apply takes_line |].
      apply takes_cons; [apply fits_plainItems | apply takes_nothing]. }
    specialize (Htakes rest _ H).
    change (fits getStringWidth MODE_FLAT
              (DArray
                 [DString (headerName shortestRoundTrip node);
                  continuation;
                  DArray
                    [builders.line;
                     builders.join builders.line
                       (map DArray
                          (plainItems
                             (itemTexts shortestRoundTrip node)))]])
              rest (Z.of_nat printWidth - Z.of_nat (pos lst)) = true).
    rewrite Htakes.
    destruct (Z.ltb_spec
                (Z.of_nat printWidth - Z.of_nat (pos lst)
                 - Z.of_nat (flatWidth getStringWidth shortestRoundTrip
                               node)) 0); [lia | exact Hrest].
Qed.

(** The header of the test [collapse lines]: a property and three
    arguments with line escapes between them, on one line. *)
Lemma plain_header_on_one_line_witness :
  plainHeaderTrivia Samples.testTokens Samples.testInNode
    Samples.collapseLines = true
  /\ headerLine Samples.noRoundTrip Samples.collapseLines
     = lit "node prop=#true " ++ quoted (lit "arg")
       ++ lit " #false 2000 {"
  /\ exists contents,
       nodeGroup Samples.noRoundTrip Samples.testTokens Samples.testInNode
         Samples.width (fun _ _ => None) Samples.collapseLines
       = Some (DGroup contents)
       /\ out (layout Samples.width 80 2 0 MODE_BREAK (DGroup contents)
                 (fun _ => true) layoutStart)
          = headerLine Samples.noRoundTrip Samples.collapseLines.
Proof.
  split; [reflexivity |]. split; [reflexivity |].
  destruct (plain_header_on_one_line Samples.noRoundTrip Samples.testTokens
              Samples.testInNode Samples.width (fun _ _ => None)
              Samples.collapseLines eq_refl) as (contents & Hgroup & Hline).
  exists contents. split; [exact Hgroup |].
  destruct (Hline 80 2 0 (fun _ => true) layoutStart) as [Hflat Hfits].
  apply Hflat, Hfits; [vm_compute; discriminate | reflexivity].
Defined.

(** ** The block of a node *)

Section RowFacts.
Variable getStringWidth : jsstring -> nat.
Variable printWidth : nat.
Variable tabWidth : nat.

Lemma layout_hardline_joined (ind : nat) (docs : list Doc)
    (rest : Z -> bool) (st : LayoutState) :
  layout getStringWidth printWidth tabWidth ind MODE_BREAK
    (builders.join builders.hardline docs) rest st
  = layoutRows getStringWidth printWidth tabWidth ind docs rest st.
Proof.
  revert st. induction docs as [|d [|d' docs] IH]; intros st;
    try reflexivity.
  change (layoutRows getStringWidth printWidth tabWidth ind
            (d :: d' :: docs) rest st)
    with (layoutRows getStringWidth printWidth tabWidth ind (d' :: docs)
            rest
            (emitNewline ind
               (layout getStringWidth printWidth tabWidth ind MODE_BREAK d
                  (fun _ => true) st))).
  rewrite <- IH. reflexivity.
Qed.

Lemma layout_blockDoc (group : Doc) (printedNodes blockTrailing : list Doc)
    (ind : nat) (rest : Z -> bool) (st : LayoutState) :
  layout getStringWidth printWidth tabWidth ind MODE_BREAK
    (blockDoc group printedNodes blockTrailing) rest st
  = emitText getStringWidth (lit "}")
      (emitNewline ind
         (layoutRows getStringWidth printWidth tabWidth (ind + tabWidth)
            (builders.join builders.hardline printedNodes :: blockTrailing)
            (fun _ => true)
            (emitNewline (ind + tabWidth)
               (layout getStringWidth printWidth tabWidth ind MODE_BREAK
                  group (fun _ => true) st)))).
Proof.
  rewrite <- layout_hardline_joined. reflexivity.
Qed.
End RowFacts.

(** X13: the children of a node are printed one level deeper, and the
    closing brace on a line of its own.  A node that is printed with a
    block prints its header group, then a line end, then its child nodes
    and the trivia that ends the block, each on a new line one
    indentation level further in than the node, then a line end and the
    closing brace at the indentation of the node. *)
Theorem children_block_layout
    (shortestRoundTrip : number -> jsstring)
    (parseLineSpace : jsstring -> list LineSpace)
    (parseNodeSpace : jsstring -> list NodeSpace)
    (getStringWidth : jsstring -> nat)
    (printNode : Node -> bool -> option Doc)
    (node : Node) (isFirstNode : bool) (doc : Doc) :
  withoutBlock node = false ->
  printNodeBody shortestRoundTrip parseLineSpace parseNodeSpace
    getStringWidth printNode node isFirstNode = Some doc ->
  exists block group printedNodes blockTrailing partsLeading partsTrailing,
    children node = Some block
    /\ nodeGroup shortestRoundTrip parseLineSpace parseNodeSpace
         getStringWidth printNode node = Some group
    /\ mapM_from (fun n i => printNode n (i =? 0)) 0 (nodes block)
       = Some printedNodes
    /\ doc
       = builders.join builders.hardline
           (partsLeading
            ++ [blockDoc group printedNodes blockTrailing]
            ++ partsTrailing)
    /\ forall printWidth tabWidth ind rest lst,
         layout getStringWidth printWidth tabWidth ind MODE_BREAK
           (blockDoc group printedNodes blockTrailing) rest lst
         = emitText getStringWidth (lit "}")
             (emitNewline ind
                (layoutRows getStringWidth printWidth tabWidth
                   (ind + tabWidth)
                   (builders.join builders.hardline printedNodes
                    :: blockTrailing)
                   (fun _ => true)
                   (emitNewline (ind + tabWidth)
                      (layout getStringWidth printWidth tabWidth ind
                         MODE_BREAK group (fun _ => true) lst))))
         /\ layout getStringWidth printWidth tabWidth (ind + tabWidth)
              MODE_BREAK (builders.join builders.hardline printedNodes)
              rest lst
            = layoutRows getStringWidth printWidth tabWidth
                (ind + tabWidth) printedNodes rest lst.
Proof.
  intros Hblock Hrun. unfold printNodeBody in Hrun. rewrite Hblock in Hrun.
  destruct (nodeGroup _ _ _ _ _ node) as [group|] eqn:Hgroup;
    [|discriminate].
  simpl in Hrun.
  destruct (if truthy (leading node) then _ else _) as [partsLeading|];
    [|discriminate].
  simpl in Hrun.
  destruct (children node) as [block|]; [|discriminate].
  unfold printDocument in Hrun.
  destruct (mapM_from _ 0 (nodes block)) as [printedNodes|] eqn:Hnodes;
    [|discriminate].
  simpl in Hrun.
  destruct (if truthy (document_trailing block) then _ else _)
    as [blockTrailing|]; [|discriminate].
  simpl in Hrun.
  destruct (if truthy (trailing node) then _ else _) as [partsTrailing|];
    [|discriminate].
  simpl in Hrun. injection Hrun as <-.
  exists block, group, printedNodes, blockTrailing, partsLeading,
    partsTrailing.
  split; [reflexivity |]. split; [reflexivity |].
  split; [exact Hnodes |]. split; [reflexivity |].
  intros printWidth tabWidth ind rest lst. split.
  - apply layout_blockDoc.
  - apply layout_hardline_joined.
Qed.

(** The node of the test [collapse lines], printed with a block. *)
Lemma children_block_layout_witness :
  exists doc,
    printNodeBody Samples.noRoundTrip Samples.testTokens Samples.testInNode
      Samples.width
      (printNode Samples.noRoundTrip Samples.testTokens Samples.testInNode
         Samples.width 7)
      Samples.collapseLines true = Some doc
    /\ exists block group printedNodes blockTrailing partsLeading
         partsTrailing,
         children Samples.collapseLines = Some block
         /\ nodeGroup Samples.noRoundTrip Samples.testTokens
              Samples.testInNode Samples.width
              (printNode Samples.noRoundTrip Samples.testTokens
                 Samples.testInNode Samples.width 7)
              Samples.collapseLines = Some group
         /\ mapM_from
              (fun n i =>
                 printNode Samples.noRoundTrip Samples.testTokens
                   Samples.testInNode Samples.width 7 n (i =? 0))
              0 (nodes block)
            = Some printedNodes
         /\ doc
            = builders.join builders.hardline
                (partsLeading
                 ++ [blockDoc group printedNodes blockTrailing]
                 ++ partsTrailing)
         /\ forall printWidth tabWidth ind rest lst,
              layout Samples.width printWidth tabWidth ind MODE_BREAK
                (blockDoc group printedNodes blockTrailing) rest lst
              = emitText Samples.width (lit "}")
                  (emitNewline ind
                     (layoutRows Samples.width printWidth tabWidth
                        (ind + tabWidth)
                        (builders.join builders.hardline printedNodes
                         :: blockTrailing)
                        (fun _ => true)
                        (emitNewline (ind + tabWidth)
                           (layout Samples.width printWidth tabWidth ind
                              MODE_BREAK group (fun _ => true) lst))))
              /\ layout Samples.width printWidth tabWidth (ind + tabWidth)
                   MODE_BREAK
                   (builders.join builders.hardline printedNodes) rest lst
                 = layoutRows Samples.width printWidth tabWidth
                     (ind + tabWidth) printedNodes rest lst.
Proof.
  eexists. split; [reflexivity |].
  apply (children_block_layout Samples.noRoundTrip Samples.testTokens
           Samples.testInNode Samples.width
           (printNode Samples.noRoundTrip Samples.testTokens
              Samples.testInNode Samples.width 7)
           Samples.collapseLines true);
    reflexivity.
Defined.

(** ** The end of the printed text *)

Lemma dropBlanks_head (s : jsstring) :
  isBlank (hd LF (dropBlanks s)) = false.
Proof.
  induction s as [|c s IH]; [reflexivity |].
  simpl. destruct (isBlank c) eqn:E; [exact IH | exact E].
Qed.

Lemma last_rev {A} (l : list A) (d : A) : last (rev l) d = hd d l.
Proof.
  destruct l as [|x l]; [reflexivity |].
  simpl. apply last_last.
Qed.

(** X14: the printed text ends with a line end, and no blank stands in
    front of it.  Whatever the document, when [print] returns a document
    of the layout library, its text at any width is a body followed by a
    line feed, and the body does not end with a space or a tab.  The body
    may itself end with a line feed: the text does not always end with
    one line feed only. *)
Theorem printed_text_ends_with_line_end
    (shortestRoundTrip : number -> jsstring)
    (parseLineSpace : jsstring -> list LineSpace)
    (parseNodeSpace : jsstring -> list NodeSpace)
    (getStringWidth : jsstring -> nat) (printWidth tabWidth depth : nat)
    (root : Document) (doc : Doc) :
  print shortestRoundTrip parseLineSpace parseNodeSpace getStringWidth
    depth root = Some doc ->
  exists body,
    printDocToString getStringWidth printWidth tabWidth doc = body ++ [LF]
    /\ isBlank (last body LF) = false.
Proof.
  unfold print. intros Hrun.
  destruct (printDocument _ _ root) as [printed|]; [|discriminate].
  injection Hrun as <-.
  exists (trimOutput
            (out (layout getStringWidth printWidth tabWidth 0 MODE_BREAK
                    printed (fun _ => true) layoutStart))).
  split.
  - unfold printDocToString.
    rewrite !layout_array_cons. reflexivity.
  - unfold trimOutput. rewrite last_rev. apply dropBlanks_head.
Qed.

Lemma printed_text_ends_with_line_end_witness :
  exists body,
    printDocToString Samples.width 80 2
      (DArray
         [builders.join builders.hardline
            [builders.join builders.hardline
               [builders.join builders.hardline
                  [headerGroup (lit "child") 6 []]]];
          builders.hardline])
    = body ++ [LF]
    /\ isBlank (last body LF) = false.
Proof.
  apply (printed_text_ends_with_line_end Samples.noRoundTrip
           Samples.spaceTokens Samples.spaceInNode Samples.width 80 2 8
           (mkDocument [Samples.child] None)).
  reflexivity.
Defined.

(** A line comment and a line end after the last node: the scan pushes
    a blank line behind the comment, and the text ends with two line
    feeds. *)
Example final_comment_and_blank_line :
  Samples.format
    (Samples.lookup
       [(commentA ++ [LF], [LSSingleline commentA; LSNewline]);
        ([LF], [LSNewline])])
    Samples.spaceInNode 80
    (mkDocument [Samples.plainNode (lit "node") [] (Some [LF])]
       (Some (commentA ++ [LF])))
  = Some (lit "node" ++ [LF] ++ lit "// a" ++ [LF; LF]).
Proof. reflexivity. Qed.

(** X15: a document without nodes and without comments prints as one
    line end.  When the document holds no node and its trivia holds only
    blanks and line ends, [print] returns at every depth, calls no
    printer of nodes, and the text is a single line feed, however many
    blank lines the source held. *)
Theorem document_without_nodes
    (shortestRoundTrip : number -> jsstring)
    (parseLineSpace : jsstring -> list LineSpace)
    (parseNodeSpace : jsstring -> list NodeSpace)
    (getStringWidth : jsstring -> nat) (printWidth tabWidth depth : nat)
    (root : Document) :
  nodes root = [] ->
  forallb isGap (parseLineSpace (orEmpty (document_trailing root))) = true ->
  exists doc,
    print shortestRoundTrip parseLineSpace parseNodeSpace getStringWidth
      depth root = Some doc
    /\ printDocToString getStringWidth printWidth tabWidth doc = [LF].
Proof.
  intros Hnodes Hgaps. unfold print, printDocument. rewrite Hnodes. simpl.
  assert (Htrailing :
            (if truthy (document_trailing root)
             then printLineSpace parseLineSpace
                    (printNode shortestRoundTrip parseLineSpace
                       parseNodeSpace getStringWidth depth)
                    (orEmpty (document_trailing root)) false
             else Some [])
            = Some []).
  { destruct (truthy (document_trailing root)); [|reflexivity].
    unfold printLineSpace, printLineSpaceTokens.
    destruct (gap_run (printNode shortestRoundTrip parseLineSpace
                         parseNodeSpace getStringWidth depth)
                _ (lineSpaceInit false) Hgaps)
      as (st' & -> & Hparts & _).
    simpl in *. now rewrite Hparts. }
  rewrite Htrailing. simpl. eexists. split; reflexivity.
Qed.

Lemma document_without_nodes_witness :
  exists doc,
    print Samples.noRoundTrip Samples.testTokens Samples.testInNode
      Samples.width 0 (mkDocument [] (Some Samples.blankLines)) = Some doc
    /\ printDocToString Samples.width 80 2 doc = [LF].
Proof.
  apply (document_without_nodes Samples.noRoundTrip Samples.testTokens
           Samples.testInNode Samples.width 80 2 0
           (mkDocument [] (Some Samples.blankLines)));
    reflexivity.
Defined.

(** ** The CommonJS build *)

Lemma reserved_plain (n : jsstring) :
  In n reservedIdentifiers ->
  n <> [] /\ plainIdentifierRe_test n = true /\ numberOfHashes n = 0.
Proof.
  intros H. simpl in H.
  repeat (destruct H as [<- | H];
          [split; [discriminate | split; reflexivity] |]).
  contradiction.
Qed.

(** X16: the two builds of [printIdentifier] differ on the empty name, on
    the reserved names and on raw strings only.  The CommonJS build
    returns the empty name as it is where the module build returns two
    double quotes; it returns the six reserved names bare where the
    module build quotes them; on every other name the two agree, but for
    the letter r the CommonJS build puts in front of a raw string. *)
Theorem legacy_printIdentifier_differs (identifier : Identifier) :
  let n := name identifier in
  (n = [] ->
   Legacy.printIdentifier identifier = []
   /\ printIdentifier identifier = quoted [])
  /\ (In n reservedIdentifiers ->
      Legacy.printIdentifier identifier = n
      /\ printIdentifier identifier = quoted n)
  /\ (n <> [] -> ~ In n reservedIdentifiers ->
      (plainIdentifierRe_test n = true \/ numberOfHashes n = 0 ->
       Legacy.printIdentifier identifier = printIdentifier identifier)
      /\ (plainIdentifierRe_test n = false -> numberOfHashes n <> 0 ->
          Legacy.printIdentifier identifier
          = lit "r" ++ printIdentifier identifier)).
Proof.
  intros n. unfold Legacy.printIdentifier, printIdentifier. fold n.
  split; [|split].
  - intros ->. split; reflexivity.
  - intros Hin. destruct (reserved_plain n Hin) as (Hne & Hplain & Hzero).
    apply existsb_streq_In in Hin. unfold reservedIdentifiers_has.
    rewrite Hin, Hplain, Hzero, orb_true_r, andb_false_r. simpl.
    split; reflexivity.
  - intros Hne Hfree.
    assert (Hhas : reservedIdentifiers_has n = false).
    { unfold reservedIdentifiers_has.
      destruct (existsb (streq n) reservedIdentifiers) eqn:E;
        [|reflexivity].
      apply existsb_streq_In in E. contradiction. }
    assert (Hlen : (length n =? 0) = false)
      by (destruct n; [contradiction | reflexivity]).
    assert (Hpos : (0 <? length n) = true)
      by (destruct n; [contradiction | reflexivity]).
    rewrite Hhas, Hlen, Hpos. simpl.
    split.
    + intros [Hplain | Hzero].
      * now rewrite Hplain.
      * rewrite Hzero. simpl.
        now destruct (plainIdentifierRe_test n).
    + intros Hplain Hk. rewrite Hplain.
      destruct (numberOfHashes n =? 0) eqn:E;
        [apply Nat.eqb_eq in E; contradiction | reflexivity].
Qed.

(** ** Header trivia and the mode of the header group *)

Section ForcedBreak.
Variable shortestRoundTrip : number -> jsstring.
Variable parseLineSpace : jsstring -> list LineSpace.
Variable parseNodeSpace : jsstring -> list NodeSpace.
Variable printNode : Node -> bool -> option Doc.

(** A forced break stays, and a line escape with a comment sets one. *)
Lemma headerStep_break (st st' : HeaderState) (whitespace : NodeSpace) :
  headerStep shortestRoundTrip parseLineSpace printNode st whitespace
  = Some st' ->
  forcesBreak (header st) || escapeHoldsComment parseLineSpace whitespace
  = true ->
  forcesBreak (header st') = true.
Proof.
  intros Hstep H. destruct whitespace; simpl in H;
    rewrite ?orb_false_r in H.
  - simpl in Hstep. now injection Hstep as <-.
  - simpl in Hstep. injection Hstep as <-.
    now rewrite lineEscape_forcesBreak.
  - simpl in Hstep. injection Hstep as <-. simpl.
    now rewrite forcesBreak_app, pushContinuation_forcesBreak, H.
  - unfold headerStep in Hstep.
    destruct (printDocument parseLineSpace printNode value0);
      [|discriminate].
    injection Hstep as <-. simpl.
    now rewrite forcesBreak_app, pushContinuation_forcesBreak, H.
  - simpl in Hstep. injection Hstep as <-. simpl.
    now rewrite forcesBreak_app, pushContinuation_forcesBreak, H.
  - simpl in Hstep. now injection Hstep as <-.
Qed.

Lemma headerTokens_break (tokens : list NodeSpace) :
  forall st st',
    foldM (headerStep shortestRoundTrip parseLineSpace printNode) tokens st
    = Some st' ->
    forcesBreak (header st)
    || existsb (escapeHoldsComment parseLineSpace) tokens = true ->
    forcesBreak (header st') = true.
Proof.
  induction tokens as [|t tokens IH]; intros st st' Hrun H; simpl in Hrun.
  - injection Hrun as <-. simpl in H. now rewrite orb_false_r in H.
  - destruct (headerStep _ _ _ st t) as [st1|] eqn:E; [|discriminate].
    simpl in Hrun. apply (IH st1 st' Hrun).
    simpl in H. rewrite orb_assoc in H.
    apply orb_true_iff in H. destruct H as [H | H].
    + now rewrite (headerStep_break st st1 t E H).
    + rewrite H. apply orb_true_r.
Qed.

Lemma entryStep_break (st st' : HeaderState) (e : Entry) :
  entryStep shortestRoundTrip parseLineSpace parseNodeSpace printNode st e
  = Some st' ->
  forcesBreak (header st)
  || existsb (commentIn parseLineSpace parseNodeSpace) (triviaOf e) = true ->
  forcesBreak (header st') = true.
Proof.
  unfold entryStep, triviaOf. intros Hstep H.
  destruct (truthy (entry_leading e)).
  - destruct (addCommentToHeader _ _ _ _ _ st) as [st0|] eqn:E;
      [|discriminate].
    injection Hstep as <-. simpl in H. rewrite orb_false_r in H.
    simpl. rewrite forcesBreak_app, pushContinuation_forcesBreak.
    now rewrite (headerTokens_break _ st st0 E H).
  - injection Hstep as <-. simpl in H. rewrite orb_false_r in H. simpl.
    now rewrite forcesBreak_app, pushContinuation_forcesBreak, H.
Qed.

Lemma entries_break (es : list Entry) :
  forall st st',
    foldM (entryStep shortestRoundTrip parseLineSpace parseNodeSpace
             printNode) es st = Some st' ->
    forcesBreak (header st)
    || existsb (commentIn parseLineSpace parseNodeSpace)
         (flat_map triviaOf es) = true ->
    forcesBreak (header st') = true.
Proof.
  induction es as [|e es IH]; intros st st' Hrun H; simpl in Hrun.
  - injection Hrun as <-. simpl in H. now rewrite orb_false_r in H.
  - destruct (entryStep _ _ _ _ st e) as [st1|] eqn:E; [|discriminate].
    simpl in Hrun. apply (IH st1 st' Hrun).
    simpl in H. rewrite existsb_app, orb_assoc in H.
    apply orb_true_iff in H. destruct H as [H | H].
    + now rewrite (entryStep_break st st1 e E H).
    + rewrite H. apply orb_true_r.
Qed.

Lemma headerOfNode_break (node : Node) (st : HeaderState) :
  headerOfNode shortestRoundTrip parseLineSpace parseNodeSpace printNode
    node = Some st ->
  escapedComment parseLineSpace parseNodeSpace node = true ->
  forcesBreak (header st) = true.
Proof.
  unfold headerOfNode, escapedComment, headerTrivia.
  rewrite existsb_app. intros Hrun H.
  destruct (foldM _ (headerEntries node) _) as [st1|] eqn:E;
    [|discriminate].
  simpl in Hrun.
  destruct (truthy (beforeChildren node)).
  - apply (headerTokens_break _ st1 st Hrun).
    simpl in H. rewrite orb_false_r in H.
    apply orb_true_iff in H. destruct H as [H | H].
    + now rewrite (entries_break _ _ st1 E H).
    + unfold commentIn in H. rewrite H. apply orb_true_r.
  - injection Hrun as <-. simpl in H. rewrite orb_false_r in H.
    now apply (entries_break _ _ st1 E).
Qed.

Lemma headerOfNode_forcesBreak (node : Node) (st : HeaderState) :
  headerOfNode shortestRoundTrip parseLineSpace parseNodeSpace printNode
    node = Some st ->
  noSlashdashDocument parseNodeSpace node = true ->
  forcesBreak (header st)
  = escapedComment parseLineSpace parseNodeSpace node.
Proof.
  unfold headerOfNode, noSlashdashDocument, escapedComment, headerTrivia.
  rewrite forallb_app, existsb_app. intros Hrun H.
  apply andb_true_iff in H. destruct H as [Hes Hbefore].
  destruct (entries_forcesBreak shortestRoundTrip parseLineSpace
              parseNodeSpace printNode (headerEntries node) Hes
              {| header := []; lastHeaderItem := Detached [] |})
    as (st1 & E & Hbreak1).
  rewrite E in Hrun. simpl in Hrun, Hbreak1.
  destruct (truthy (beforeChildren node)).
  - simpl in Hbefore. rewrite andb_true_r in Hbefore.
    destruct (cleanText_forcesBreak shortestRoundTrip parseLineSpace
                parseNodeSpace printNode _ st1 Hbefore)
      as (st2 & E2 & Hbreak).
    rewrite E2 in Hrun. injection Hrun as <-.
    rewrite Hbreak, Hbreak1. simpl. now rewrite orb_false_r.
  - injection Hrun as <-. rewrite Hbreak1. simpl. now rewrite orb_false_r.
Qed.
End ForcedBreak.

Lemma enterGroup_forced (getStringWidth : jsstring -> nat)
    (printWidth : nat) (mode : Mode) (contents : Doc) (rest : Z -> bool)
    (lst : LayoutState) :
  hasBreakParent contents = true ->
  fst (enterGroup getStringWidth printWidth mode contents rest lst)
  = MODE_BREAK.
Proof.
  intros H. unfold enterGroup. rewrite H.
  destruct mode, (shouldRemeasure lst); reflexivity.
Qed.

Lemma enterGroup_free (getStringWidth : jsstring -> nat)
    (printWidth : nat) (contents : Doc) (rest : Z -> bool)
    (lst : LayoutState) :
  hasBreakParent contents = false ->
  fst (enterGroup getStringWidth printWidth MODE_BREAK contents rest lst)
  = (if fitsFrom getStringWidth MODE_FLAT contents rest
          (Z.of_nat printWidth - Z.of_nat (pos lst))
     then MODE_FLAT else MODE_BREAK)
  /\ (shouldRemeasure lst = false ->
      fst (enterGroup getStringWidth printWidth MODE_FLAT contents rest lst)
      = MODE_FLAT).
Proof.
  intros H. unfold enterGroup. rewrite H. simpl. split.
  - now destruct (fitsFrom _ _ _ _ _).
  - now intros ->.
Qed.

(** C6, as the printer has it.  Of the items [addCommentToHeader] makes,
    only the item of a comment inside a line escape holds a break parent.
    A node whose header trivia holds such a line escape has a header
    group with a break parent, and the group is rendered in break mode
    at every width and in every enclosing mode.  The items of a block
    comment and of a slashdash entry hold none and leave the mark of the
    header as it was: a node whose header trivia holds no comment inside
    a line escape (and no slashdashed child block) has a header group
    without a break parent, which is rendered flat exactly when its flat
    measure fits what is left of the line, and flat inside a flat
    group. *)
Theorem header_trivia_forced_break
    (shortestRoundTrip : number -> jsstring)
    (parseLineSpace : jsstring -> list LineSpace)
    (parseNodeSpace : jsstring -> list NodeSpace)
    (getStringWidth : jsstring -> nat)
    (printNode : Node -> bool -> option Doc)
    (node : Node) (group : Doc) :
  nodeGroup shortestRoundTrip parseLineSpace parseNodeSpace getStringWidth
    printNode node = Some group ->
  exists contents,
    group = DGroup contents
    /\ (escapedComment parseLineSpace parseNodeSpace node = true ->
        hasBreakParent contents = true
        /\ forall printWidth mode rest lst,
             fst (enterGroup getStringWidth printWidth mode contents rest
                    lst) = MODE_BREAK)
    /\ (escapedComment parseLineSpace parseNodeSpace node = false ->
        noSlashdashDocument parseNodeSpace node = true ->
        hasBreakParent contents = false
        /\ forall printWidth rest lst,
             fst (enterGroup getStringWidth printWidth MODE_BREAK contents
                    rest lst)
             = (if fitsFrom getStringWidth MODE_FLAT contents rest
                     (Z.of_nat printWidth - Z.of_nat (pos lst))
                then MODE_FLAT else MODE_BREAK)
             /\ (shouldRemeasure lst = false ->
                 fst (enterGroup getStringWidth printWidth MODE_FLAT
                        contents rest lst) = MODE_FLAT))
    /\ (forall st : HeaderState,
          (forall text,
             existsb isComment (parseLineSpace (slice_1 text)) = true ->
             exists st',
               headerStep shortestRoundTrip parseLineSpace printNode st
                 (NSLineEscape text) = Some st'
               /\ forcesBreak (header st') = true)
          /\ (forall text,
                exists st',
                  headerStep shortestRoundTrip parseLineSpace printNode st
                    (NSMultiline text) = Some st'
                  /\ forcesBreak (header st') = forcesBreak (header st))
          /\ (forall entry,
                exists st',
                  headerStep shortestRoundTrip parseLineSpace printNode st
                    (NSSlashdashEntry entry) = Some st'
                  /\ forcesBreak (header st') = forcesBreak (header st)))
    /\ (forall name n h,
          hasBreakParent (headerGroup name n h) = forcesBreak h).
Proof.
  unfold nodeGroup. intros Hgroup.
  destruct (headerOfNode _ _ _ _ node) as [st0|] eqn:Hheader;
    [|discriminate].
  injection Hgroup as <-.
  eexists. split; [reflexivity |].
  assert (Hmark :
            hasBreakParent
              (headerGroup (headerName shortestRoundTrip node)
                 (nameAlign getStringWidth node)
                 (header (closeHeader node st0)))
            = forcesBreak (header st0))
    by (now rewrite hasBreakParent_headerGroup, closeHeader_forcesBreak).
  unfold headerGroup, builders.group in Hmark.
  change (hasBreakParent (DGroup ?c)) with (hasBreakParent c) in Hmark.
  split; [|split; [|split; [|apply hasBreakParent_headerGroup]]].
  - intros Hcomment.
    rewrite (headerOfNode_break _ _ _ _ node st0 Hheader Hcomment) in Hmark.
    split; [exact Hmark |].
    intros printWidth mode rest lst. now apply enterGroup_forced.
  - intros Hnone Hclean.
    rewrite (headerOfNode_forcesBreak _ _ _ _ node st0 Hheader Hclean),
      Hnone in Hmark.
    split; [exact Hmark |].
    intros printWidth rest lst. now apply enterGroup_free.
  - intros st. split; [|split].
    + intros text H. eexists. split; [reflexivity |].
      now apply lineEscape_breaks.
    + intros text. eexists. split; [reflexivity |]. simpl.
      rewrite forcesBreak_app, pushContinuation_forcesBreak. simpl.
      now rewrite headerComment_noBreak, orb_false_r.
    + intros entry. eexists. split; [reflexivity |]. simpl.
      rewrite forcesBreak_app, pushContinuation_forcesBreak. simpl.
      now rewrite orb_false_r.
Qed.

(** The header of [Samples.commented] holds a line escape with a comment:
    its group is rendered in break mode at width 80, where its text would
    fit. *)
Lemma header_trivia_forced_break_witness :
  escapedComment Samples.commentTokens Samples.commentInNode
    Samples.commented = true
  /\ exists contents,
       headerGroup (lit "n") 2 (header commentedHeader) = DGroup contents
       /\ hasBreakParent contents = true
       /\ fst (enterGroup Samples.width 80 MODE_BREAK contents
                 (fun _ => true) layoutStart) = MODE_BREAK.
Proof.
  split; [reflexivity |].
  destruct (header_trivia_forced_break Samples.noRoundTrip
              Samples.commentTokens Samples.commentInNode Samples.width
              (fun _ _ => None) Samples.commented
              (headerGroup (lit "n") 2 (header commentedHeader)) eq_refl)
    as (contents & Hgroup & Hforced & _).
  exists contents. split; [exact Hgroup |].
  destruct (Hforced eq_refl) as [Hmark Hmode].
  split; [exact Hmark | apply Hmode].
Defined.

(** C6, against the claim as it is stated: the header of
    [Samples.slashdashed] holds the item of a slashdash entry; its group
    holds no break parent, is rendered flat, and the header is printed on
    one line, the opening brace of the block at its end. *)
Lemma slashdash_entry_stays_flat :
  nodeGroup Samples.noRoundTrip Samples.slashdashTokens
    Samples.slashdashInNode Samples.width (fun _ _ => None)
    Samples.slashdashed
  = Some (headerGroup (lit "node") 5
            [[DString (lit "/-"); DString (quoted (lit "arg"));
              continuation];
             [DString (lit "{")]])
  /\ hasBreakParent
       (headerGroup (lit "node") 5
          [[DString (lit "/-"); DString (quoted (lit "arg"));
            continuation];
           [DString (lit "{")]]) = false
  /\ Samples.format Samples.slashdashTokens Samples.slashdashInNode 80
       (mkDocument [Samples.slashdashed] None)
     = Some (lit "node /-" ++ quoted (lit "arg") ++ lit " {" ++ [LF]
             ++ lit "  child" ++ [LF] ++ lit "}" ++ [LF]).
Proof. repeat split. Qed.

(** ** The two builds of [printIdentifier] *)





(** ** The lines of a block comment *)

Lemma isLineTerminator_iff (c : N) :
  isLineTerminator c = true
  <-> In c [0x0A; 0x0C; 0x0D; 0x85; 0x2028; 0x2029]%N.
Proof.
  unfold isLineTerminator. rewrite !orb_true_iff, !N.eqb_eq. simpl.
  intuition congruence.
Qed.

Lemma isInlineSpace_iff (c : N) :
  isInlineSpace c = true
  <-> In c [0x20; 0x09; 0xFEFF; 0xA0; 0x1680; 0x202F; 0x205F; 0x3000]%N
      \/ (0x2000 <= c <= 0x200A)%N.
Proof.
  unfold isInlineSpace, inRange.
  rewrite !orb_true_iff, andb_true_iff, !N.leb_le, !N.eqb_eq. simpl.
  intuition congruence.
Qed.

Lemma splitLines_terminator (line rest : jsstring) (t : N) :
  forallb notTerminator line = true ->
  isLineTerminator t = true ->
  (t =? CR)%N && startsWith rest [LF] = false ->
  splitLines (line ++ t :: rest) = line :: splitLines rest.
Proof.
  intros Hline Ht Hpair. rewrite splitLines_app by exact Hline.
  assert (Hsplit : splitLines (t :: rest) = [] :: splitLines rest).
  { simpl. rewrite Ht. destruct rest as [|d rest']; [reflexivity |].
    assert (Hnil : startsWith rest' [] = true) by (now destruct rest').
    simpl in Hpair. rewrite Hnil, andb_true_r in Hpair. now rewrite Hpair. }
  rewrite Hsplit. now rewrite app_nil_r.
Qed.

Lemma splitLines_pair (line rest : jsstring) :
  forallb notTerminator line = true ->
  splitLines (line ++ CR :: LF :: rest) = line :: splitLines rest.
Proof.
  intros Hline. rewrite splitLines_app by exact Hline.
  change (splitLines (CR :: LF :: rest)) with ([] :: splitLines rest).
  cbv beta iota. now rewrite app_nil_r.
Qed.

(** C9: the text of a block comment is split on line terminators: a
    text without a terminator is one line, a line ends at the first
    terminator (the pair CR LF counted as one), and the lines hold,
    in order, every unit of the text that is no terminator.  With one
    line, or with a continuation line that does not start with a star
    once its leading blanks are dropped, the lines are written as they
    are, joined by hard lines that force a break.  Otherwise the first
    line is written without its leading blanks and every continuation
    line as one space followed by the line without its leading blanks,
    so as one space, the star and what follows it; the leading blanks
    that are dropped are the longest run of inline blanks the line
    starts with. *)
Theorem lineSpaceComment_lines (text : jsstring) :
  (exists first rest,
     splitLines text = first :: rest
     /\ Forall (fun line =>
                  forallb (fun c => negb (isLineTerminator c)) line = true)
               (first :: rest)
     /\ hasBreakParent builders.hardline = true
     /\ ((rest = []
          \/ exists line,
               In line rest /\ startsWith (trimStart line) [STAR] = false) ->
         lineSpaceComment text
         = builders.join builders.hardline (map DString (first :: rest)))
     /\ ((rest <> []
          /\ forall line,
               In line rest -> startsWith (trimStart line) [STAR] = true) ->
         lineSpaceComment text
         = builders.join builders.hardline
             (DString (trimStart first)
              :: map (fun line => DString (SPACE :: trimStart line)) rest)
         /\ forall line, In line rest ->
              exists blanks body,
                line = blanks ++ STAR :: body
                /\ forallb isInlineSpace blanks = true
                /\ SPACE :: trimStart line = SPACE :: STAR :: body))
  /\ (forall rec st,
        exists st',
          lineSpaceStep rec st (LSMultiline text) = Some st'
          /\ parts st' = parts st ++ [lineSpaceComment text])
  /\ concat (splitLines text) = filter notTerminator text
  /\ (forall line,
        forallb notTerminator line = true -> splitLines line = [line])
  /\ (forall line t rest,
        forallb notTerminator line = true ->
        isLineTerminator t = true ->
        (t =? CR)%N && startsWith rest [LF] = false ->
        splitLines (line ++ t :: rest) = line :: splitLines rest)
  /\ (forall line rest,
        forallb notTerminator line = true ->
        splitLines (line ++ CR :: LF :: rest) = line :: splitLines rest)
  /\ (forall c,
        isLineTerminator c = true
        <-> In c [0x0A; 0x0C; 0x0D; 0x85; 0x2028; 0x2029]%N)
  /\ (forall line,
        exists blanks,
          line = blanks ++ trimStart line
          /\ forallb isInlineSpace blanks = true
          /\ match trimStart line with
             | c :: _ => isInlineSpace c = false
             | [] => True
             end)
  /\ (forall c,
        isInlineSpace c = true
        <-> In c [0x20; 0x09; 0xFEFF; 0xA0; 0x1680; 0x202F; 0x205F;
                  0x3000]%N
            \/ (0x2000 <= c <= 0x200A)%N).
Proof.
  split.
  { destruct (splitLines_cons text) as (first & rest & Hsplit).
    exists first, rest. split; [exact Hsplit |].
    split; [rewrite <- Hsplit; apply splitLines_no_terminator |].
    split; [reflexivity |].
    unfold lineSpaceComment. rewrite Hsplit, every_startsWithStar. simpl.
    split.
    - intros [-> | (line & Hin & Hstar)]; [reflexivity |].
      replace (forallb _ rest) with false; [now rewrite orb_true_r |].
      symmetry. apply not_true_is_false. intros Hall.
      rewrite forallb_forall in Hall. apply Hall in Hin. congruence.
    - intros [Hne Hall]. split.
      + replace (forallb _ rest) with true
          by (symmetry; now apply forallb_forall).
        destruct rest; [congruence | reflexivity].
      + intros line Hin. apply Hall in Hin.
        destruct (trimStart_prefix line) as (blanks & Heq & Hblank & _).
        apply startsWith_iff in Hin. destruct Hin as [body Hbody].
        exists blanks, body. rewrite Hbody in Heq. simpl in Heq.
        now rewrite Hbody. }
  split; [intros rec st; eexists; split; reflexivity |].
  split; [apply splitLines_concat |].
  split.
  { intros line H. rewrite <- (app_nil_r line) at 1.
    rewrite splitLines_app by exact H. simpl. now rewrite app_nil_r. }
  split; [intros line t rest; apply splitLines_terminator |].
  split; [intros line rest; apply splitLines_pair |].
  split; [apply isLineTerminator_iff |].
  split; [apply trimStart_prefix | apply isInlineSpace_iff].
Qed.
